(** * Quantum RPG: command parser, save tokens, input helpers and main loop

    A shallow embedding of [examples/quantum_rpg/main_loop.py],
    [game_state.py], [input_helpers.py] and the quantopedia part of
    [npcs.py], together with the properties the specification states
    about them.

    Python values are modelled as follows.
    - [str] is a list of characters; a character is a code point below
      256 ([ascii]).
    - [int] is [Z] (unbounded, two's complement for [|] and [&]).
      CPython limits the number of digits that [int(s)] and [str(n)]
      convert, to 4300 unless configured otherwise: [int_limited] and
      [str_limited] apply that limit and are what the quantopedia
      methods, whose number is chosen by the caller, are modelled with;
      [int] and [str_of_int] leave it aside and are what the count of a
      save token, the length of a party and the numbers typed at a
      prompt are converted with.
    - a [dict] is an insertion-ordered association list with unique keys.
    - an exception is a constructor of [exn]; a call that may raise
      returns a [result].
    - a method that mutates [self] returns the object after the call
      together with what the call returned or raised.

    The modules [qaracter], [world], [encounter], [battle], [xp_utils]
    and [ascii_art] are not among the sources; what the modelled code
    uses of them is a parameter ([QaracterAPI], [WorldAPI]) or, where
    marked, modelled from the specification.  Of the earlier
    [unitary/examples/quantum_rpg/main_loop.py] only [Command], with its
    single member [quit], is modelled. *)

From Stdlib Require Import List ZArith NArith Arith Bool Ascii String Lia.
Import ListNotations.

Local Open Scope list_scope.

(** ** Python builtins *)

Module Py.

Definition str := list ascii.

(** A literal of the source, written as a Rocq string. *)
Definition lit (s : string) : str := list_ascii_of_string s.

Inductive exn : Type :=
| ValueError
| StopIteration
| EOFError
| KeyError
| IndexError
| AmbiguousCommandError
| UntimelyDeathException.

Inductive result (A : Type) : Type :=
| Return (a : A)
| Raise (e : exn).

Arguments Return {A} a.
Arguments Raise {A} e.

Definition bind {A B} (r : result A) (k : A -> result B) : result B :=
  match r with
  | Return a => k a
  | Raise e => Raise e
  end.

Notation "'let*' x ':=' r 'in' k" := (bind r (fun x => k))
  (at level 10, x name, r at level 100, k at level 200).

Definition code (c : ascii) : nat := nat_of_ascii c.

Definition between (lo hi : nat) (c : ascii) : bool :=
  (lo <=? code c)%nat && (code c <=? hi)%nat.

(** [str.startswith]: [startswith v s] is [v.startswith(s)]. *)
Fixpoint startswith (v s : str) : bool :=
  match s, v with
  | [], _ => true
  | _ :: _, [] => false
  | c :: s', d :: v' => Ascii.eqb c d && startswith v' s'
  end.

(** [str.lower] on code points below 256: A-Z, and the Latin-1 capitals
    U+00C0..U+00DE except the multiplication sign U+00D7. *)
Definition lower_char (c : ascii) : ascii :=
  if between 65 90 c || (between 192 222 c && negb (code c =? 215)%nat)
  then ascii_of_nat (code c + 32)
  else c.

Definition lower (s : str) : str := map lower_char s.

(** [str.split(sep)] for a one-character separator. *)
Fixpoint split (sep : ascii) (s : str) : list str :=
  match s with
  | [] => [[]]
  | c :: s' =>
      if Ascii.eqb c sep then [] :: split sep s'
      else match split sep s' with
           | [] => [[c]]
           | seg :: segs => (c :: seg) :: segs
           end
  end.

(** [s[:-1]]. *)
Definition drop_last (s : str) : str := removelast s.

(** [l[i:]] with Python's treatment of a negative start. *)
Definition slice_from {A} (l : list A) (i : Z) : list A :=
  let n := Z.of_nat (List.length l) in
  let start := if (i <? 0)%Z then Z.max 0 (n + i) else i in
  skipn (Z.to_nat start) l.

(** [l[i]], a negative index counting from the end. *)
Definition getitem {A} (l : list A) (i : Z) : result A :=
  let n := Z.of_nat (List.length l) in
  let j := if (i <? 0)%Z then (n + i)%Z else i in
  if (j <? 0)%Z then Raise IndexError
  else match nth_error l (Z.to_nat j) with
       | Some x => Return x
       | None => Raise IndexError
       end.

(** [range(lo, hi)]. *)
Definition range (lo hi : Z) : list Z :=
  map (fun k => (lo + Z.of_nat k)%Z) (seq 0 (Z.to_nat (hi - lo))).

(** [sep.join(l)]. *)
Fixpoint join (sep : str) (l : list str) : str :=
  match l with
  | [] => []
  | [x] => x
  | x :: rest => x ++ sep ++ join sep rest
  end.

(** [f"{s: ^w}"]: centred with spaces, the odd space on the right. *)
Definition center (w : nat) (s : str) : str :=
  let pad := (w - List.length s)%nat in
  repeat " "%char (pad / 2) ++ s ++ repeat " "%char (pad - pad / 2).

(** [len(l)]. *)
Definition len {A} (l : list A) : Z := Z.of_nat (List.length l).

Fixpoint str_eqb (a b : str) : bool :=
  match a, b with
  | [], [] => true
  | c :: a', d :: b' => Ascii.eqb c d && str_eqb a' b'
  | _, _ => false
  end.

(** A line written by [print]; the text of a printed exception is kept
    abstract as the exception and its argument. *)
Inductive printed : Type :=
| Line (s : str)
| ExnLine (e : exn) (arg : str).

(** [str.isspace] for one character: what [str.strip] removes and what
    [textwrap.indent] takes for a blank line. *)
Definition is_space (c : ascii) : bool :=
  between 9 13 c || between 28 32 c || (code c =? 133)%nat || (code c =? 160)%nat.

(** *** [int(s)]

    Optional surrounding white space, an optional sign, then decimal
    digits in which single underscores may separate digits.  The white
    space of [int] is that of [str.isspace] without the separators
    U+001C..U+001F. *)

Definition is_int_space (c : ascii) : bool :=
  between 9 13 c || (code c =? 32)%nat || (code c =? 133)%nat || (code c =? 160)%nat.

Definition is_digit (c : ascii) : bool := between 48 57 c.

Definition digit_val (c : ascii) : Z := Z.of_nat (code c - 48).

Fixpoint lstrip (s : str) : str :=
  match s with
  | c :: s' => if is_int_space c then lstrip s' else s
  | [] => []
  end.

Definition strip (s : str) : str := rev (lstrip (rev (lstrip s))).

Fixpoint int_digits (acc : Z) (after_digit : bool) (s : str) : option Z :=
  match s with
  | [] => if after_digit then Some acc else None
  | c :: s' =>
      if is_digit c then int_digits (10 * acc + digit_val c) true s'
      else if Ascii.eqb c "_" && after_digit then int_digits acc false s'
      else None
  end.

Definition int (s : str) : result Z :=
  let t := strip s in
  let parsed :=
    match t with
    | [] => None
    | c :: r =>
        if Ascii.eqb c "-" then option_map Z.opp (int_digits 0 false r)
        else if Ascii.eqb c "+" then int_digits 0 false r
        else int_digits 0 false t
    end in
  match parsed with
  | Some z => Return z
  | None => Raise ValueError
  end.

(** *** [str(n)] for an [int] *)

Definition digit_char (d : N) : ascii := ascii_of_N (48 + d).

Fixpoint str_digits (fuel : nat) (n : N) (acc : str) : str :=
  match fuel with
  | O => acc
  | S fuel' =>
      let acc' := digit_char (n mod 10) :: acc in
      if (n / 10 =? 0)%N then acc' else str_digits fuel' (n / 10)%N acc'
  end.

Definition str_of_N (n : N) : str := str_digits (S (N.size_nat n)) n [].

Definition str_of_int (z : Z) : str :=
  if (z <? 0)%Z then "-"%char :: str_of_N (Z.to_N (- z))
  else str_of_N (Z.to_N z).

(** *** The digit limit of [int(s)] and [str(n)]

    [sys.get_int_max_str_digits()], as the interpreter starts.  [int(s)]
    raises [ValueError] when [s] holds more digits than that, leading
    zeros counted, underscores, sign and white space not; [str(n)] raises
    [ValueError] when [n] has more digits than that, that is, when its
    absolute value is [10 ** 4300] or more. *)

Definition int_max_str_digits : Z := 4300.

Definition digits_in (s : str) : Z := len (filter is_digit s).

Definition int_limited (s : str) : result Z :=
  let* z := int s in
  if (int_max_str_digits <? digits_in s)%Z then Raise ValueError else Return z.

Definition str_limited (n : Z) : result str :=
  if (10 ^ int_max_str_digits <=? Z.abs n)%Z then Raise ValueError
  else Return (str_of_int n).

End Py.

Import Py.

(** ** [main_loop.Command] *)

Module Command.

Inductive Command : Type :=
| LOAD | LOOK | STATUS | SAVE | HELP | QUANTOPEDIA | QUIT.

Definition value (c : Command) : str :=
  match c with
  | LOAD => lit "load"
  | LOOK => lit "look"
  | STATUS => lit "status"
  | SAVE => lit "save"
  | HELP => lit "help"
  | QUANTOPEDIA => lit "quantopedia"
  | QUIT => lit "Quit"
  end.

(** Iteration order of the enumeration: definition order. *)
Definition members : list Command :=
  [LOAD; LOOK; STATUS; SAVE; HELP; QUANTOPEDIA; QUIT].

Definition eqb (a b : Command) : bool :=
  match a, b with
  | LOAD, LOAD | LOOK, LOOK | STATUS, STATUS | SAVE, SAVE
  | HELP, HELP | QUANTOPEDIA, QUANTOPEDIA | QUIT, QUIT => true
  | _, _ => false
  end.

(** The [for cmd in cls] loop of [parse]: [candidates] is threaded. *)
Fixpoint collect (lower_s : str) (cmds : list Command) (candidates : list Command)
  : list Command :=
  match cmds with
  | [] => candidates
  | cmd :: rest =>
      if eqb cmd QUIT then collect lower_s rest candidates
      else if startswith (value cmd) lower_s
           then collect lower_s rest (candidates ++ [cmd])
           else collect lower_s rest candidates
  end.

Definition parse (s : str) : result (option Command) :=
  match s with
  | [] => Return None
  | _ :: _ =>
      if startswith (value QUIT) s then Return (Some QUIT)
      else
        let lower_s := lower s in
        let candidates := collect lower_s members [] in
        if (List.length candidates =? 1)%nat then
          let* c := Py.getitem candidates 0 in Return (Some c)
        else if (1 <? List.length candidates)%nat then Raise AmbiguousCommandError
        else Return None
  end.

(** The test of the case-insensitive pass for one command. *)
Definition candidate (lower_s : str) (c : Command) : bool :=
  negb (eqb c QUIT) && startswith (value c) lower_s.

(** What [parse] tests for a command: [Quit] against the input as typed,
    every other literal against the lower-cased input. *)
Definition matches (c : Command) (s : str) : bool :=
  if eqb c QUIT then startswith (value QUIT) s
  else startswith (value c) (lower s).

(** All prefixes of a literal, the empty one included. *)
Fixpoint prefixes (v : str) : list str :=
  match v with
  | [] => [[]]
  | c :: v' => [] :: map (cons c) (prefixes v')
  end.

End Command.

(** ** Python [dict] with string keys and values *)

Module Dict.

Definition dict := list (str * str).

Fixpoint get (d : dict) (k : str) : option str :=
  match d with
  | [] => None
  | (k', v) :: d' => if str_eqb k' k then Some v else get d' k
  end.

(** [k in d]. *)
Definition contains (d : dict) (k : str) : bool :=
  match get d k with Some _ => true | None => false end.

(** [d[k]]. *)
Definition getitem (d : dict) (k : str) : result str :=
  match get d k with Some v => Return v | None => Raise KeyError end.

(** [d[k] = v]: an existing key keeps its position. *)
Fixpoint set (d : dict) (k v : str) : dict :=
  match d with
  | [] => [(k, v)]
  | (k', v') :: d' =>
      if str_eqb k' k then (k', v) :: d' else (k', v') :: set d' k v
  end.

(** Keys of a dict are pairwise distinct. *)
Definition wf (d : dict) : Prop := NoDup (map fst d).

End Dict.

(** ** [input_helpers] *)

Module InputHelpers.

Definition _INVALID_MESSAGE : str := lit "Invalid number selected.".

(** The callable returned by [get_user_input_function]: an iterator over
    the recorded inputs, or [input] reading the lines still to come on
    standard input. *)
Inductive source : Type :=
| Scripted (pending : list str)
| Stdin (pending : list str).

Definition get_user_input_function (user_input : option (list str))
  (stdin : list str) : source :=
  match user_input with
  | Some l => Scripted l
  | None => Stdin stdin
  end.

(** One call [get_user_input(prompt)]. *)
Definition call (f : source) (prompt : str) : source * result str :=
  match f with
  | Scripted [] => (f, Raise StopIteration)
  | Scripted (x :: rest) => (Scripted rest, Return x)
  | Stdin [] => (f, Raise EOFError)
  | Stdin (x :: rest) => (Stdin rest, Return x)
  end.

(** Successive calls, one per prompt, until one raises. *)
Fixpoint calls (f : source) (prompts : list str) : source * list (result str) :=
  match prompts with
  | [] => (f, [])
  | p :: ps =>
      match call f p with
      | (f', Return x) => let '(f'', rs) := calls f' ps in (f'', Return x :: rs)
      | (f', Raise e) => (f', [Raise e])
      end
  end.

Definition pending (f : source) : list str :=
  match f with Scripted p | Stdin p => p end.

Definition exhausted (f : source) : exn :=
  match f with Scripted _ => StopIteration | Stdin _ => EOFError end.

Definition with_pending (f : source) (p : list str) : source :=
  match f with Scripted _ => Scripted p | Stdin _ => Stdin p end.

Definition in_range (max_number : option Z) (user_input : Z) : bool :=
  match max_number with
  | None => true
  | Some m => (0 <? user_input)%Z && (user_input <=? m)%Z
  end.

Definition nonempty (s : str) : bool :=
  match s with [] => false | _ :: _ => true end.

(** The [while True] loop of [get_user_input_number]; every iteration
    takes one line from the source. *)
Fixpoint number_loop (stop : exn) (lines : list str) (max_number : option Z)
  (invalid_message : str) (file : list printed)
  : list str * list printed * result Z :=
  match lines with
  | [] => ([], file, Raise stop)
  | line :: rest =>
      match int line with
      | Raise e =>
          let msg := if nonempty invalid_message then Line invalid_message
                     else ExnLine e line in
          number_loop stop rest max_number invalid_message (file ++ [msg])
      | Return user_input =>
          if in_range max_number user_input then (rest, file, Return user_input)
          else
            let msg := if nonempty invalid_message then Line invalid_message
                       else Line (lit "number out of range") in
            number_loop stop rest max_number invalid_message (file ++ [msg])
      end
  end.

Definition get_user_input_number (get_user_input : source) (message : str)
  (max_number : option Z) (invalid_message : str) (file : list printed)
  : source * list printed * result Z :=
  let '(rest, file', r) :=
    number_loop (exhausted get_user_input) (pending get_user_input)
      max_number invalid_message file in
  (with_pending get_user_input rest, file', r).

(** What a prompt of [get_multiple_user_inputs] returns: a number or a
    string. *)
Inductive value : Type :=
| IntValue (z : Z)
| StrValue (s : str).

(** A prompt is a callable without arguments; it reads from the input
    source and prints to the file that the caller uses, so the model
    hands both to it and takes them back. *)
Definition prompt : Type :=
  source -> list printed -> source * list printed * result value.

(** [[p() for p in prompts]]. *)
Fixpoint run_prompts (prompts : list prompt) (f : source) (file : list printed)
  : source * list printed * result (list value) :=
  match prompts with
  | [] => (f, file, Return [])
  | p :: ps =>
      match p f file with
      | (f, file, Raise e) => (f, file, Raise e)
      | (f, file, Return v) =>
          match run_prompts ps f file with
          | (f, file, Raise e) => (f, file, Raise e)
          | (f, file, Return vs) => (f, file, Return (v :: vs))
          end
      end
  end.

(** How the inner [while True] loop of [get_multiple_user_inputs] is
    left: by [return inputs] or by [break]. *)
Inductive selection : Type := Confirm | Redo.

Fixpoint choose_action (stop : exn) (lines : list str) : list str * result selection :=
  match lines with
  | [] => ([], Raise stop)
  | a :: rest =>
      if str_eqb a (lit "r") then (rest, Return Redo)
      else if str_eqb a (lit "") then (rest, Return Confirm)
      else choose_action stop rest
  end.

(** [get_multiple_user_inputs], run for at most [fuel] rounds of the
    outer loop: [None] when the selection is redone more often. *)
Fixpoint get_multiple_user_inputs (fuel : nat) (get_user_input : source)
  (prompts : list prompt) (file : list printed)
  : option (source * list printed * result (list value)) :=
  match fuel with
  | O => None
  | S fuel' =>
      match run_prompts prompts get_user_input file with
      | (f, file, Raise e) => Some (f, file, Raise e)
      | (f, file, Return inputs) =>
          let file := file ++ [Line (lit "[enter]) Confirm selection.");
                               Line (lit "r) Redo selection.")] in
          match choose_action (exhausted f) (pending f) with
          | (rest, Raise e) => Some (with_pending f rest, file, Raise e)
          | (rest, Return Confirm) => Some (with_pending f rest, file, Return inputs)
          | (rest, Return Redo) =>
              get_multiple_user_inputs fuel' (with_pending f rest) prompts file
          end
      end
  end.

(** The [while True] loop of [get_user_input_qaracter_name];
    [is_valid_name] stands for [qaracter.Qaracter.is_valid_name], which
    is not among the sources. *)
Fixpoint name_loop (is_valid_name : str -> bool) (stop : exn) (lines : list str)
  (file : list printed) : list str * list printed * result str :=
  match lines with
  | [] => ([], file, Raise stop)
  | user_input :: rest =>
      if is_valid_name user_input then (rest, file, Return user_input)
      else name_loop is_valid_name stop rest
             (file ++ [Line (lit "Invalid qaracter name")])
  end.

Definition get_user_input_qaracter_name (is_valid_name : str -> bool)
  (get_user_input : source) (qaracter_type : str) (file : list printed)
  : source * list printed * result str :=
  let '(rest, file', r) :=
    name_loop is_valid_name (exhausted get_user_input) (pending get_user_input) file in
  (with_pending get_user_input rest, file', r).

End InputHelpers.

(** ** [qaracter.Qaracter], as far as the game state and the main loop
    use it *)

Class QaracterAPI : Type := {
  Qaracter : Type;
  Qaracter_to_save_file : Qaracter -> str;
  Qaracter_from_save_file : str -> result Qaracter;
  qar_status : Qaracter -> str;
  qar_name : Qaracter -> str
}.

(** ** [game_state.GameState] *)

Module GameState.

Definition _SAVE_DELIMITER : ascii := ";"%char.
Definition _DICT_DELIMITER : ascii := ":"%char.
Definition _QUANTOPEDIA_KEY : str := lit "qp".

Section WithQaracter.
Context {Q : QaracterAPI}.

Record GameState : Type := mkGameState {
  party : list Qaracter;
  current_location_label : str;
  current_input : str;
  state_dict : Dict.dict;
  get_user_input : InputHelpers.source
}.

Definition set_current_location_label (self : GameState) (l : str) : GameState :=
  mkGameState (party self) l (current_input self) (state_dict self)
    (get_user_input self).

Definition set_state_dict (self : GameState) (d : Dict.dict) : GameState :=
  mkGameState (party self) (current_location_label self) (current_input self) d
    (get_user_input self).

Definition set_party (self : GameState) (p : list Qaracter) : GameState :=
  mkGameState p (current_location_label self) (current_input self)
    (state_dict self) (get_user_input self).

Definition set_current_input (self : GameState) (s : str) : GameState :=
  mkGameState (party self) (current_location_label self) s (state_dict self)
    (get_user_input self).

Definition set_get_user_input (self : GameState) (f : InputHelpers.source)
  : GameState :=
  mkGameState (party self) (current_location_label self) (current_input self)
    (state_dict self) f.

(** [GameState(party, current_location_label, state_dict, user_input)]. *)
Definition init (party : list Qaracter) (current_location_label : str)
  (state_dict : option Dict.dict) (user_input : option (list str))
  (stdin : list str) : GameState :=
  mkGameState party current_location_label []
    (match state_dict with Some d => d | None => [] end)
    (InputHelpers.get_user_input_function user_input stdin).

(** A method mutates [self]: it returns the object after the call and
    what the call returned or raised.  The flag is read with [int] and
    written with [str], both under the digit limit; when [str] raises,
    the ["0"] written for a missing flag stays. *)
Definition set_quantopedia (self : GameState) (num : Z) : GameState * result unit :=
  let self1 :=
    if negb (Dict.contains (state_dict self) _QUANTOPEDIA_KEY)
    then set_state_dict self (Dict.set (state_dict self) _QUANTOPEDIA_KEY (lit "0"))
    else self in
  match (let* v := Dict.getitem (state_dict self1) _QUANTOPEDIA_KEY in
         int_limited v) with
  | Raise e => (self1, Raise e)
  | Return n =>
      let quantopedia_num := Z.lor n num in
      match str_limited quantopedia_num with
      | Raise e => (self1, Raise e)
      | Return s =>
          (set_state_dict self1 (Dict.set (state_dict self1) _QUANTOPEDIA_KEY s),
           Return tt)
      end
  end.

Definition has_quantopedia (self : GameState) (num : Z) : result bool :=
  if negb (Dict.contains (state_dict self) _QUANTOPEDIA_KEY) then Return false
  else
    let* v := Dict.getitem (state_dict self) _QUANTOPEDIA_KEY in
    let* quantopedia_num := int_limited v in
    Return (negb (Z.land quantopedia_num num =? 0)%Z).

(** What [with_save_file] returns: [None] or [self]. *)
Inductive loaded : Type := RetNone | RetSelf.

(** [for party_idx in range(2, 2 + num_party): party.append(...)]. *)
Fixpoint load_party (lines : list str) (idxs : list Z) (party : list Qaracter)
  : result (list Qaracter) :=
  match idxs with
  | [] => Return party
  | party_idx :: rest =>
      let* line := Py.getitem lines party_idx in
      let* q := Qaracter_from_save_file line in
      load_party lines rest (party ++ [q])
  end.

(** [for line in lines[2 + num_party:]: ...]. *)
Fixpoint load_state_dict (lines : list str) (state_dict : Dict.dict) : Dict.dict :=
  match lines with
  | [] => state_dict
  | line :: rest =>
      let dict_value := split ":"%char line in
      match dict_value with
      | k :: v :: _ => load_state_dict rest (Dict.set state_dict k v)
      | _ => load_state_dict rest state_dict
      end
  end.

Definition with_save_file (self : GameState) (save_file : str)
  : GameState * result loaded :=
  let lines := split _SAVE_DELIMITER save_file in
  if (len lines <? 2)%Z then (self, Return RetNone)
  else
    match lines with
    | [] => (self, Raise IndexError)
    | line0 :: _ =>
        let self := set_current_location_label self line0 in
        match (let* line1 := Py.getitem lines 1 in int line1) with
        | Raise ValueError => (self, Return RetNone)
        | Raise e => (self, Raise e)
        | Return num_party =>
            if (len lines <? 2 + num_party)%Z then (self, Return RetNone)
            else
              match load_party lines (range 2 (2 + num_party)) [] with
              | Raise e => (self, Raise e)
              | Return party =>
                  let state_dict :=
                    load_state_dict (slice_from lines (2 + num_party)) [] in
                  let self := set_state_dict self state_dict in
                  let self := set_party self party in
                  (self, Return RetSelf)
              end
        end
    end.

(** [GameState.from_save_file]: a fresh state loaded from the token; the
    class method returns what [with_save_file] returns. *)
Definition from_save_file (save_file : str) (user_input : option (list str))
  (stdin : list str) : GameState * result loaded :=
  with_save_file (init [] [] (Some []) user_input stdin) save_file.

Definition to_save_file (self : GameState) : str :=
  let s := current_location_label self ++ [_SAVE_DELIMITER]
           ++ str_of_int (len (party self)) ++ [_SAVE_DELIMITER] in
  let s := fold_left
             (fun s p => s ++ Qaracter_to_save_file p ++ [_SAVE_DELIMITER])
             (party self) s in
  let s := fold_left
             (fun s kv => s ++ fst kv ++ [_DICT_DELIMITER] ++ snd kv
                            ++ [_SAVE_DELIMITER])
             (state_dict self) s in
  drop_last s.

(** The segments of the token written by [to_save_file]. *)
Definition flag_segment (kv : str * str) : str :=
  fst kv ++ [_DICT_DELIMITER] ++ snd kv.

Definition segments (self : GameState) : list str :=
  current_location_label self
    :: str_of_int (len (party self))
    :: map Qaracter_to_save_file (party self) ++ map flag_segment (state_dict self).

End WithQaracter.

End GameState.

(** ** [npcs]: the quantopedia data of the [Npc] subclasses *)

Module Npcs.

Definition _FOAM_QUANTOPEDIA : Z := 1.
Definition _HILLS_QUANTOPEDIA : Z := 2.
Definition _PERIMETER_QUANTOPEDIA : Z := 4.

Definition newline : ascii := ascii_of_nat 10.

Record NpcClass : Type := mkNpcClass {
  __name__ : str;
  quantopedia_index : Z;
  quantopedia_entry : str
}.

Definition text (lines : list str) : str := join [newline] lines.

Definition Observer : NpcClass :=
  mkNpcClass (lit "Observer") _FOAM_QUANTOPEDIA
    (text [lit "Observers are known to frequent quantum events.";
           lit "They will measure qubits in order to find out their values."]).

Definition BlueFoam : NpcClass :=
  mkNpcClass (lit "BlueFoam") _FOAM_QUANTOPEDIA
    (text [lit "Blue foam are the simplest kind of quantum errors.  Blue foam";
           lit "are usually found in the |0> state and can be measured.";
           lit "They will often slime their opponents with small fracts of X gates."]).

Definition GreenFoam : NpcClass :=
  mkNpcClass (lit "GreenFoam") _FOAM_QUANTOPEDIA
    (text [lit "Green foam are a simple kind of quantum error.  Green foam";
           lit "are usually found in the |0> state and can be measured immediately.";
           lit "They will often ooze, which will change their opponent's phase"]).

Definition RedFoam : NpcClass :=
  mkNpcClass (lit "RedFoam") _FOAM_QUANTOPEDIA
    (text [lit "Red foam are a slightly more dangerous type of quantum error.";
           lit "They are usually found in the |1> state and must be flipped";
           lit "before they can be safely measured."]).

Definition PurpleFoam : NpcClass :=
  mkNpcClass (lit "PurpleFoam") _FOAM_QUANTOPEDIA
    (text [lit "Purple foam are a combination of red and blue form.";
           lit "They are found in a |+> state which is a combination of";
           lit "the |0> state and |1> state.  They can be safely measured";
           lit "once a Hadamard gate has been applied."]).

Definition SchrodingerCat : NpcClass :=
  mkNpcClass (lit "SchrodingerCat") _HILLS_QUANTOPEDIA
    (text [lit "Schr" ++ [ascii_of_nat 246]
             ++ lit "dinger's cat are found in a superposition of zero and one.";
           lit "This cat contains multiple qubits that are entangled so that all";
           lit "qubits are in the same state.  That is, all qubits are in a superposition";
           lit "of all ones or all zeros.  These cats have been known to apply";
           lit "Hadamard gates with their claws and measure opponents."]).


(** [Npc.__subclasses__()]: the direct subclasses, in definition order. *)
Definition Npc__subclasses__ : list NpcClass :=
  [Observer; BlueFoam; GreenFoam; RedFoam; PurpleFoam; SchrodingerCat].

End Npcs.

(** ** The world, encounters and battles, as far as the main loop uses them *)

Module World.

(** Modelled from the spec: [battle.BattleResult], the states of the
    battle loop ([battle.py] is not part of the sources at hand). *)
Inductive BattleResult : Type := ACTIVE | PLAYERS_WON | PLAYERS_DOWN.

(** Modelled from the spec: a [world.Location] holds the encounter
    definitions still active there, in roster order; [world.World] maps
    labels to locations and points at the current one.  The pointer is
    kept as a label, so that a change made through the current location
    is a change of the location stored under that label. *)
Record Location (E : Type) : Type := mkLocation {
  encounters : list E
}.

Arguments mkLocation {E} encounters.
Arguments encounters {E} l.

Record World (E : Type) : Type := mkWorld {
  locations : list (str * Location E);
  current_location : str
}.

Arguments mkWorld {E} locations current_location.
Arguments locations {E} w.
Arguments current_location {E} w.

Section Store.
Context {E : Type}.

Fixpoint find (ls : list (str * Location E)) (l : str) : option (Location E) :=
  match ls with
  | [] => None
  | (k, loc) :: rest => if str_eqb k l then Some loc else find rest l
  end.

Fixpoint update (ls : list (str * Location E)) (l : str) (loc : Location E)
  : list (str * Location E) :=
  match ls with
  | [] => []
  | (k, old) :: rest =>
      if str_eqb k l then (k, loc) :: rest else (k, old) :: update rest l loc
  end.

(** The encounters active at the location labelled [l]. *)
Definition encounters_at (w : World E) (l : str) : list E :=
  match find (locations w) l with
  | Some loc => encounters loc
  | None => []
  end.

(** [world.current_location.encounters]. *)
Definition current_encounters (w : World E) : list E :=
  encounters_at w (current_location w).

(** [world.current_location = world.locations[label]]. *)
Definition goto (w : World E) (label : str) : result (World E) :=
  match find (locations w) label with
  | Some _ => Return (mkWorld (locations w) label)
  | None => Raise KeyError
  end.

End Store.

(** The result of [encounter.initiate(state)] followed by
    [current_battle.loop()]. *)
Record BattleRun (G R : Type) : Type := mkBattleRun {
  battle_state : G;
  battle_file : list printed;
  battle_rng : R;
  battle_result : result BattleResult;
  battle_xp : Z
}.

Arguments mkBattleRun {G R}.
Arguments battle_state {G R} b.
Arguments battle_file {G R} b.
Arguments battle_rng {G R} b.
Arguments battle_result {G R} b.
Arguments battle_xp {G R} b.

(** What a location offers for an input: a text, or a callable. *)
Inductive Action (A : Type) : Type :=
| ActionText (s : str)
| ActionCall (a : A).

Arguments ActionText {A} s.
Arguments ActionCall {A} a.

End World.

Import World.

(** The modules the main loop calls and that are not part of the sources
    at hand ([world], [encounter], [battle], [xp_utils], [ascii_art]),
    taken as parameters.  Random draws thread the state [Rng] of the
    generator. *)
Class WorldAPI {Q : QaracterAPI} : Type := {
  Direction : Type;
  Direction_parse : str -> option Direction;
  exits : str -> Direction -> option str;
  Encounter : Type;
  Encounter_eqb : Encounter -> Encounter -> bool;
  Encounter_eqb_eq : forall a b, Encounter_eqb a b = true <-> a = b;
  Encounter_description : Encounter -> str;
  Rng : Type;
  will_trigger : Encounter -> Rng -> bool * Rng;
  run_battle : Encounter -> GameState.GameState -> Rng
               -> BattleRun GameState.GameState Rng;
  award_xp : GameState.GameState -> Z -> GameState.GameState * list printed;
  Location_str : World Encounter -> str;
  ActionId : Type;
  get_action : World Encounter -> str -> option (Action ActionId);
  run_action : ActionId -> GameState.GameState -> World Encounter
               -> GameState.GameState * World Encounter * str;
  ascii_art_HELP : str;
  ascii_art_RIP_TOP : str;
  ascii_art_RIP_BOTTOM : str
}.

(** ** [main_loop.MainLoop] *)

Module MainLoop.

Section WithWorld.
Context {Q : QaracterAPI} {W : WorldAPI}.

Record MainLoop : Type := mkMainLoop {
  world : World Encounter;
  game_state : GameState.GameState;
  file : list printed;
  rng : Rng
}.

Definition print (self : MainLoop) (s : str) : MainLoop :=
  mkMainLoop (world self) (game_state self) (file self ++ [Line s]) (rng self).

Definition write (self : MainLoop) (ps : list printed) : MainLoop :=
  mkMainLoop (world self) (game_state self) (file self ++ ps) (rng self).

Definition set_world (self : MainLoop) (w : World Encounter) : MainLoop :=
  mkMainLoop w (game_state self) (file self) (rng self).

Definition set_game_state (self : MainLoop) (g : GameState.GameState) : MainLoop :=
  mkMainLoop (world self) g (file self) (rng self).

Definition set_rng (self : MainLoop) (r : Rng) : MainLoop :=
  mkMainLoop (world self) (game_state self) (file self) r.

(** Modelled from the spec: [Location.remove_encounter], which takes the
    encounter out of the active set of its location ([world.py] is not
    part of the sources at hand). *)
Definition remove_encounter (w : World Encounter) (l : str) (e : Encounter)
  : World Encounter :=
  match find (locations w) l with
  | Some loc =>
      mkWorld
        (update (locations w) l
           (mkLocation (filter (fun x => negb (Encounter_eqb x e)) (encounters loc))))
        (current_location w)
  | None => w
  end.

(** Modelled from the spec: [World.move], which follows the edge of the
    current location in the given direction, if there is one, and
    returns the label of the new location. *)
Definition move (w : World Encounter) (d : Direction) : World Encounter * option str :=
  match exits (current_location w) d with
  | Some l => (mkWorld (locations w) l, Some l)
  | None => (w, None)
  end.

(** [textwrap.indent(text, prefix)] for a text whose lines end in a
    newline character. *)
Definition indent (text prefix : str) : str :=
  join [Npcs.newline]
    (map (fun l => if forallb is_space l then l else prefix ++ l)
       (split Npcs.newline text)).

(** [Command.help()]. *)
Definition help : str :=
  join [Npcs.newline]
    (lit "Available commands:"
       :: map (fun cmd => lit "  " ++ Command.value cmd) Command.members).

Fixpoint status_lines (idx : Z) (party : list Qaracter) : list str :=
  match party with
  | [] => []
  | qar :: rest =>
      (str_of_int (idx + 1) ++ lit ") " ++ qar_status qar) :: status_lines (idx + 1) rest
  end.

Definition print_status (self : MainLoop) : MainLoop :=
  print self (join [Npcs.newline] (status_lines 0 (GameState.party (game_state self)))).

(** The lines the [QUANTOPEDIA] branch prints for the classes it walks. *)
Fixpoint quantopedia_lines (classes : list Npcs.NpcClass) : list printed :=
  match classes with
  | [] => []
  | npc_class :: rest =>
      Line (Npcs.__name__ npc_class)
        :: Line (indent (Npcs.quantopedia_entry npc_class) (lit "  "))
        :: Line []
        :: quantopedia_lines rest
  end.

Definition print_quantopedia (self : MainLoop) : MainLoop :=
  write self (Line [] :: quantopedia_lines Npcs.Npc__subclasses__).

(** The [for random_encounter in ...encounters] loop: the first encounter
    that triggers is fought and removed, and the loop is left.  Returns
    the value of [result] after the loop. *)
Fixpoint encounter_loop (encs : list Encounter) (self : MainLoop)
  : MainLoop * result (option BattleResult) :=
  match encs with
  | [] => (self, Return None)
  | random_encounter :: rest =>
      let '(fires, r) := will_trigger random_encounter (rng self) in
      let self := set_rng self r in
      if fires then
        let self :=
          if InputHelpers.nonempty (Encounter_description random_encounter)
          then print self (Encounter_description random_encounter) else self in
        let run := run_battle random_encounter (game_state self) (rng self) in
        let self := set_rng (write (set_game_state self (battle_state run))
                               (battle_file run)) (battle_rng run) in
        match battle_result run with
        | Raise e => (self, Raise e)
        | Return result =>
            let self :=
              set_world self
                (remove_encounter (world self) (current_location (world self))
                   random_encounter) in
            match result with
            | PLAYERS_WON =>
                let '(g, out) := award_xp (game_state self) (battle_xp run) in
                (write (set_game_state self g) out, Return (Some result))
            | PLAYERS_DOWN => (self, Raise UntimelyDeathException)
            | _ => (self, Return (Some result))
            end
        end
      else encounter_loop rest self
  end.

(** The encounter that [encounter_loop] fights to a result, with that
    result: the first one to trigger, unless its battle raises. *)
Fixpoint fired (encs : list Encounter) (self : MainLoop)
  : option (Encounter * BattleResult) :=
  match encs with
  | [] => None
  | random_encounter :: rest =>
      let '(fires, r) := will_trigger random_encounter (rng self) in
      let self := set_rng self r in
      if fires then
        match battle_result (run_battle random_encounter (game_state self) (rng self)) with
        | Return result => Some (random_encounter, result)
        | Raise _ => None
        end
      else fired rest self
  end.

(** The part of an iteration before the prompt. *)
Definition arrive (self : MainLoop) (print_room_description : bool)
  : MainLoop * result unit :=
  if print_room_description then
    let self := print self (Location_str (world self)) in
    match current_encounters (world self) with
    | [] => (self, Return tt)
    | encs =>
        match encounter_loop encs self with
        | (self, Raise e) => (self, Raise e)
        | (self, Return None) => (self, Return tt)
        | (self, Return (Some _)) =>
            (print self (Location_str (world self)), Return tt)
        end
    end
  else (self, Return tt).

(** One turn of [while True]. *)
Inductive turn : Type :=
| Continue (self : MainLoop) (print_room_description : bool)
| Returned (self : MainLoop)
| Raised (self : MainLoop) (e : exn).

Definition turn_state (t : turn) : MainLoop :=
  match t with
  | Continue self _ | Returned self | Raised self _ => self
  end.

Definition read (self : MainLoop) (prompt : str) : MainLoop * result str :=
  let '(f, r) := InputHelpers.call (GameState.get_user_input (game_state self)) prompt in
  (set_game_state self (GameState.set_get_user_input (game_state self) f), r).

(** The commands.  The [print("")] of the [SAVE] branch goes to standard
    output, not to [file], and is left out. *)
Definition dispatch (self : MainLoop) (current_input : str)
  (input_cmd : option Command.Command) : turn :=
  match input_cmd with
  | Some Command.QUIT => Returned self
  | Some Command.STATUS => Continue (print_status self) false
  | Some Command.HELP => Continue (print self ascii_art_HELP) false
  | Some Command.QUANTOPEDIA => Continue (print_quantopedia self) false
  | Some Command.LOAD =>
      let self :=
        print self (lit "Paste the save file here to load the game from that point.") in
      match read self [] with
      | (self, Raise e) => Raised self e
      | (self, Return save_file) =>
          match GameState.with_save_file (game_state self) save_file with
          | (g, Raise e) => Raised (set_game_state self g) e
          | (g, Return GameState.RetNone) =>
              Continue (print (set_game_state self g) (lit "Unrecognized save file.")) true
          | (g, Return GameState.RetSelf) =>
              let self := set_game_state self g in
              match goto (world self) (GameState.current_location_label g) with
              | Raise e => Raised self e
              | Return w => Continue (set_world self w) true
              end
          end
      end
  | Some Command.SAVE =>
      let self := print self (lit "Use this code to return to this point in the game:") in
      let self := print self (GameState.to_save_file (game_state self)) in
      Continue self false
  | Some Command.LOOK => Continue (print self (Location_str (world self))) false
  | None =>
      Continue
        (print self (lit "I did not understand the command " ++ current_input ++ lit "."))
        false
  end.

(** The part of an iteration from the prompt on. *)
Definition respond (self : MainLoop) : turn :=
  match read self (lit ">") with
  | (self, Raise e) => Raised self e
  | (self, Return current_input) =>
      let self :=
        set_game_state self
          (GameState.set_current_input (game_state self) current_input) in
      match Direction_parse current_input with
      | Some cmd =>
          let '(w, new_location) := move (world self) cmd in
          let self := set_world self w in
          let self :=
            match new_location with
            | Some l =>
                set_game_state self
                  (GameState.set_current_location_label (game_state self) l)
            | None => self
            end in
          Continue self true
      | None =>
          match get_action (world self) current_input with
          | Some (ActionText s) => Continue (print self s) false
          | Some (ActionCall a) =>
              let '(g, w, msg) := run_action a (game_state self) (world self) in
              let self := set_world (set_game_state self g) w in
              let self := if InputHelpers.nonempty msg then print self msg else self in
              Continue self false
          | None =>
              match Command.parse current_input with
              | Raise AmbiguousCommandError =>
                  Continue
                    (print self
                       (lit "Ambiguous command '" ++ current_input ++ lit "'. " ++ help))
                    false
              | Raise e => Raised self e
              | Return input_cmd => dispatch self current_input input_cmd
              end
          end
      end
  end.

Definition loop_body (self : MainLoop) (print_room_description : bool) : turn :=
  match arrive self print_room_description with
  | (self, Raise e) => Raised self e
  | (self, Return _) => respond self
  end.

(** [n] turns of the loop, or fewer when it is left earlier. *)
Fixpoint turns (n : nat) (self : MainLoop) (print_room_description : bool) : turn :=
  match n with
  | O => Continue self print_room_description
  | S n' =>
      match loop_body self print_room_description with
      | Continue self' p => turns n' self' p
      | t => t
      end
  end.

(** The handler of [UntimelyDeathException]. *)
Definition untimely_death (self : MainLoop) : MainLoop :=
  let self := write self [ExnLine UntimelyDeathException (lit "You have been defeated!")] in
  let self := print self ascii_art_RIP_TOP in
  let self :=
    fold_left
      (fun self qar =>
         print self (lit "     |       | " ++ center 16 (qar_name qar) ++ lit " |"))
      (GameState.party (game_state self)) self in
  let self := print self ascii_art_RIP_BOTTOM in
  let self := print self (lit "You have been measured and were found wanting.") in
  print self (lit "Better luck next repetition.").

(** [loop], run for at most [fuel] turns: [None] when the loop has not
    been left by then. *)
Definition loop (fuel : nat) (self : MainLoop) : option (MainLoop * result unit) :=
  match turns fuel self true with
  | Continue _ _ => None
  | Returned self => Some (self, Return tt)
  | Raised self UntimelyDeathException => Some (untimely_death self, Return tt)
  | Raised self e => Some (self, Raise e)
  end.

(** No location of [w'] holds an encounter that it does not hold in [w]. *)
Definition no_new_encounters (w w' : World Encounter) : Prop :=
  forall l x, In x (encounters_at w' l) -> In x (encounters_at w l).

(** The callables that locations offer as actions add no encounter. *)
Definition actions_keep_encounters : Prop :=
  forall a g w, no_new_encounters w (snd (fst (run_action a g w))).

(** The game state once the line [s] has been read from the input
    source, [rest] being what the source still holds. *)
Definition after_read (self : MainLoop) (s : str) (rest : list str)
  : GameState.GameState :=
  GameState.set_current_input
    (GameState.set_get_user_input (game_state self)
       (InputHelpers.with_pending (GameState.get_user_input (game_state self)) rest))
    s.

(** The lines that a state still has to read. *)
Definition unread (g : GameState.GameState) : nat :=
  List.length (InputHelpers.pending (GameState.get_user_input g)).

(** Battles, awards and the callables of locations read from the input
    source and put nothing back into it. *)
Definition inputs_only_consumed : Prop :=
  (forall e g r, (unread (battle_state (run_battle e g r)) <= unread g)%nat)
  /\ (forall g xp, (unread (fst (award_xp g xp)) <= unread g)%nat)
  /\ (forall a g w, (unread (fst (fst (run_action a g w))) <= unread g)%nat).

End WithWorld.

End MainLoop.

(** ** [main_loop.main]: the start menu *)

Module Main.

Section WithWorld.
Context {Q : QaracterAPI} {W : WorldAPI}.

(** What [main] takes from modules that are not among the sources: the
    screens of [ascii_art], [classes.Analyst], [Qaracter.is_valid_name],
    the world built by [world.World(final_state_world.WORLD)] and the
    state of the random generator when the game starts. *)
Variables (TITLE_SCREEN START_MENU INTRO_STORY : str).
Variable Analyst : str -> Qaracter.
Variable is_valid_name : str -> bool.
Variable WORLD : World Encounter.
Variable rng0 : Rng.

(** How the [while not main_loop] loop is left: with a main loop to run,
    by [return], or by an exception. *)
Inductive menu : Type :=
| Started (main_loop : MainLoop.MainLoop)
| Left (state : GameState.GameState) (file : list printed)
| Failed (state : GameState.GameState) (file : list printed) (e : exn).

(** The menu loop, run for at most [fuel] rounds. *)
Fixpoint start_menu (fuel : nat) (state : GameState.GameState) (file : list printed)
  : option menu :=
  match fuel with
  | O => None
  | S fuel' =>
      let file := file ++ [Line START_MENU] in
      match InputHelpers.get_user_input_number (GameState.get_user_input state)
              (lit ">") (Some 4%Z) InputHelpers._INVALID_MESSAGE file with
      | (f, file, Raise e) => Some (Failed (GameState.set_get_user_input state f) file e)
      | (f, file, Return menu_choice) =>
          let state := GameState.set_get_user_input state f in
          if (menu_choice =? 1)%Z then
            let file := file ++ [Line INTRO_STORY] in
            match InputHelpers.get_user_input_qaracter_name is_valid_name
                    (GameState.get_user_input state)
                    (lit "your initial Analyst qaracter") file with
            | (f, file, Raise e) =>
                Some (Failed (GameState.set_get_user_input state f) file e)
            | (f, file, Return name) =>
                let state := GameState.set_get_user_input state f in
                let qar := Analyst name in
                let state := GameState.set_party state (GameState.party state ++ [qar]) in
                Some (Started (MainLoop.mkMainLoop WORLD state file rng0))
            end
          else if (menu_choice =? 2)%Z then
            let file :=
              file ++ [Line (lit "Paste the save file here to load the game from that point.")] in
            match InputHelpers.call (GameState.get_user_input state) (lit "") with
            | (f, Raise e) => Some (Failed (GameState.set_get_user_input state f) file e)
            | (f, Return save_file) =>
                let state := GameState.set_get_user_input state f in
                match GameState.with_save_file state save_file with
                | (state, Raise e) => Some (Failed state file e)
                | (state, Return GameState.RetNone) =>
                    start_menu fuel' state (file ++ [Line (lit "Unrecognized save file.")])
                | (state, Return GameState.RetSelf) =>
                    match goto WORLD (GameState.current_location_label state) with
                    | Raise e => Some (Failed state file e)
                    | Return w => Some (Started (MainLoop.mkMainLoop w state file rng0))
                    end
                end
            end
          else if (menu_choice =? 3)%Z then
            start_menu fuel' state (file ++ [Line ascii_art_HELP])
          else if (menu_choice =? 4)%Z then Some (Left state file)
          else start_menu fuel' state file
      end
  end.

(** [main], with at most [menu_fuel] rounds of the menu and [loop_fuel]
    turns of the main loop. *)
Definition main (menu_fuel loop_fuel : nat) (state : GameState.GameState)
  (file : list printed)
  : option (GameState.GameState * list printed * result unit) :=
  match start_menu menu_fuel state (file ++ [Line TITLE_SCREEN]) with
  | None => None
  | Some (Left state file) => Some (state, file, Return tt)
  | Some (Failed state file e) => Some (state, file, Raise e)
  | Some (Started main_loop) =>
      match MainLoop.loop loop_fuel main_loop with
      | None => None
      | Some (main_loop, r) =>
          Some (MainLoop.game_state main_loop, MainLoop.file main_loop, r)
      end
  end.

End WithWorld.

End Main.

(** ** The earlier [unitary/examples/quantum_rpg/main_loop.py]: its
    [Command] *)

Module EarlierCommand.

Inductive Command : Type := QUIT.

Definition value (c : Command) : str :=
  match c with QUIT => lit "quit" end.

Definition members : list Command := [QUIT].

(** The [for cmd in Command] loop of [parse]; falling out of it returns
    [None]. *)
Fixpoint first_match (lower_s : str) (cmds : list Command) : option Command :=
  match cmds with
  | [] => None
  | cmd :: rest =>
      if startswith (value cmd) lower_s then Some cmd else first_match lower_s rest
  end.

Definition parse (s : str) : option Command := first_match (lower s) members.

End EarlierCommand.

(** ** A small instance, for examples *)

Module Example.

(** A party member reduced to its name, saved as that name. *)
Definition named : QaracterAPI :=
  {| Qaracter := str;
     Qaracter_to_save_file := fun q => q;
     Qaracter_from_save_file := fun s => Return s;
     qar_status := fun q => q;
     qar_name := fun q => q |}.

(** A world without exits or actions; encounters are numbers, every
    encounter triggers, and a battle ends at once: won against an even
    encounter, lost against an odd one. *)
Definition arena : @WorldAPI named :=
  {| Direction := unit;
     Direction_parse := fun _ => None;
     exits := fun _ _ => None;
     Encounter := nat;
     Encounter_eqb := Nat.eqb;
     Encounter_eqb_eq := Nat.eqb_eq;
     Encounter_description := fun _ => [];
     Rng := nat;
     will_trigger := fun _ r => (true, S r);
     run_battle := fun e g r =>
       mkBattleRun g [] r
         (Return (if Nat.even e then PLAYERS_WON else PLAYERS_DOWN)) 10;
     award_xp := fun g _ => (g, []);
     Location_str := fun w => current_location w;
     ActionId := unit;
     get_action := fun _ _ => None;
     run_action := fun _ g w => (g, w, []);
     ascii_art_HELP := [];
     ascii_art_RIP_TOP := [];
     ascii_art_RIP_BOTTOM := [] |}.

(** A world of two places, [square] and [mill], the mill north of the
    square; [n] and [s] are the directions; every place offers the
    actions [Quit], a text, and [ring], a callable. *)
Definition village : @WorldAPI named :=
  {| Direction := bool;
     Direction_parse := fun s =>
       if str_eqb s (lit "n") then Some true
       else if str_eqb s (lit "s") then Some false
       else None;
     exits := fun l d =>
       if str_eqb l (lit "square") && d then Some (lit "mill")
       else if str_eqb l (lit "mill") && negb d then Some (lit "square")
       else None;
     Encounter := nat;
     Encounter_eqb := Nat.eqb;
     Encounter_eqb_eq := Nat.eqb_eq;
     Encounter_description := fun _ => [];
     Rng := nat;
     will_trigger := fun _ r => (true, S r);
     run_battle := fun e g r =>
       mkBattleRun g [] r
         (Return (if Nat.even e then PLAYERS_WON else PLAYERS_DOWN)) 10;
     award_xp := fun g _ => (g, []);
     Location_str := fun w => current_location w;
     ActionId := unit;
     get_action := fun _ s =>
       if str_eqb s (lit "Quit") then Some (ActionText (lit "There is no way out."))
       else if str_eqb s (lit "ring") then Some (ActionCall tt)
       else None;
     run_action := fun _ g w => (g, w, lit "The bell rings.");
     ascii_art_HELP := [];
     ascii_art_RIP_TOP := [];
     ascii_art_RIP_BOTTOM := [] |}.

Definition game (label : str) (party : list str) (flags : Dict.dict)
  (inputs : list str) : @GameState.GameState named :=
  @GameState.init named party label (Some flags) (Some inputs) [].

End Example.

(** * Properties *)

(** ** Facts about the builtins *)

Module PyFacts.

Lemma str_eqb_eq (a b : str) : str_eqb a b = true <-> a = b.
Proof.
  revert b; induction a as [|c a IH]; intros [|d b]; simpl;
    try (split; [discriminate | discriminate]); try tauto.
  rewrite andb_true_iff, Ascii.eqb_eq, IH.
  split; [intros [-> ->]; reflexivity | intros H; injection H; auto].
Qed.

Lemma str_eqb_refl (a : str) : str_eqb a a = true.
Proof. apply str_eqb_eq; reflexivity. Qed.


(** *** The builtins on a few inputs *)

Example split_trailing :
  split ";"%char (lit "hills;1;doug;") = [lit "hills"; lit "1"; lit "doug"; lit ""].
Proof. reflexivity. Qed.

Example split_empty : split ";"%char (lit "") = [lit ""].
Proof. reflexivity. Qed.

Example int_accepts :
  int (lit " 42 ") = Return 42%Z /\ int (lit "-0") = Return 0%Z
  /\ int (lit "+1_000") = Return 1000%Z /\ int (lit "007") = Return 7%Z.
Proof. repeat split; reflexivity. Qed.

Example int_refuses :
  int (lit "") = Raise ValueError /\ int (lit "4 2") = Raise ValueError
  /\ int (lit "1__0") = Raise ValueError /\ int (lit "5_") = Raise ValueError
  /\ int (lit "- 5") = Raise ValueError /\ int (lit "x") = Raise ValueError
  /\ int [ascii_of_nat 28; "5"%char] = Raise ValueError
  /\ int ["5"%char; ascii_of_nat 31] = Raise ValueError.
Proof. repeat split; reflexivity. Qed.

Example int_strips :
  int [ascii_of_nat 9; "5"%char; ascii_of_nat 160] = Return 5%Z
  /\ int [ascii_of_nat 133; "-"%char; "5"%char; ascii_of_nat 13] = Return (-5)%Z.
Proof. repeat split; reflexivity. Qed.

Example str_of_int_examples :
  str_of_int 0 = lit "0" /\ str_of_int (-120) = lit "-120"
  /\ str_of_int 4096 = lit "4096".
Proof. repeat split; reflexivity. Qed.

Example lower_example : lower (lit "QuAnT") = lit "quant".
Proof. reflexivity. Qed.

Example slice_from_examples :
  slice_from [1; 2; 3]%Z 2 = [3]%Z /\ slice_from [1; 2; 3]%Z (-2) = [2; 3]%Z
  /\ slice_from [1; 2; 3]%Z (-5) = [1; 2; 3]%Z /\ slice_from [1; 2; 3]%Z 7 = [].
Proof. repeat split; reflexivity. Qed.

(** *** [split] and [join] *)


Lemma split_free (sep : ascii) (s : str) : ~ In sep s -> split sep s = [s].
Proof.
  induction s as [|c s IH]; simpl; intros H; [reflexivity|].
  destruct (Ascii.eqb c sep) eqn:E.
  - apply Ascii.eqb_eq in E. tauto.
  - rewrite IH by tauto. reflexivity.
Qed.

Lemma split_app (sep : ascii) (a b : str) :
  ~ In sep a -> split sep (a ++ sep :: b) = a :: split sep b.
Proof.
  induction a as [|c a IH]; simpl; intros H.
  - rewrite Ascii.eqb_refl. reflexivity.
  - destruct (Ascii.eqb c sep) eqn:E.
    + apply Ascii.eqb_eq in E. tauto.
    + rewrite IH by tauto. reflexivity.
Qed.

Lemma split_join (sep : ascii) (segs : list str) :
  segs <> [] -> Forall (fun seg => ~ In sep seg) segs ->
  split sep (join [sep] segs) = segs.
Proof.
  induction segs as [|x segs IH]; intros Hne Hall; [congruence|].
  inversion Hall as [|? ? Hx Hrest]; subst.
  destruct segs as [|y segs].
  - simpl. apply split_free; assumption.
  - change (join [sep] (x :: y :: segs)) with (x ++ sep :: join [sep] (y :: segs)).
    rewrite split_app by assumption.
    rewrite IH; [reflexivity | discriminate | assumption].
Qed.

Lemma fold_left_append {A} (f : A -> str) (l : list A) (s : str) :
  fold_left (fun s x => s ++ f x) l s = s ++ List.concat (map f l).
Proof.
  revert s; induction l as [|x l IH]; intros s; simpl.
  - rewrite app_nil_r. reflexivity.
  - rewrite IH, <- app_assoc. reflexivity.
Qed.

Lemma drop_last_terminated (sep : ascii) (segs : list str) :
  segs <> [] ->
  drop_last (List.concat (map (fun seg => seg ++ [sep]) segs)) = join [sep] segs.
Proof.
  unfold drop_last.
  induction segs as [|x segs IH]; intros Hne; [congruence|].
  destruct segs as [|y segs].
  - simpl. rewrite app_nil_r. apply removelast_last.
  - change (List.concat (map (fun seg => seg ++ [sep]) (x :: y :: segs)))
      with ((x ++ [sep]) ++ List.concat (map (fun seg => seg ++ [sep]) (y :: segs))).
    rewrite removelast_app.
    + rewrite IH by discriminate.
      change (join [sep] (x :: y :: segs)) with (x ++ [sep] ++ join [sep] (y :: segs)).
      rewrite <- app_assoc. reflexivity.
    + simpl. destruct y; discriminate.
Qed.

(** *** [int] and [str] on integers *)

Lemma digit_char_props (d : N) :
  (d < 10)%N ->
  is_digit (digit_char d) = true /\ digit_val (digit_char d) = Z.of_N d.
Proof.
  intros H.
  assert (E : d = 0%N \/ d = 1%N \/ d = 2%N \/ d = 3%N \/ d = 4%N \/ d = 5%N
              \/ d = 6%N \/ d = 7%N \/ d = 8%N \/ d = 9%N) by lia.
  repeat (destruct E as [E|E]; [subst d; split; reflexivity|]).
  subst d; split; reflexivity.
Qed.

Lemma str_digits_digits (fuel : nat) (n : N) (acc : str) :
  Forall (fun c => is_digit c = true) acc ->
  Forall (fun c => is_digit c = true) (str_digits fuel n acc).
Proof.
  revert n acc; induction fuel as [|fuel IH]; intros n acc Hacc; simpl; [assumption|].
  assert (Hd : is_digit (digit_char (n mod 10)) = true).
  { apply digit_char_props. apply N.mod_lt. discriminate. }
  destruct (n / 10 =? 0)%N.
  - constructor; assumption.
  - apply IH. constructor; assumption.
Qed.


Lemma int_digits_digit (a : Z) (b : bool) (c : ascii) (s : str) :
  is_digit c = true ->
  int_digits a b (c :: s) = int_digits (10 * a + digit_val c) true s.
Proof. intros H. cbn [int_digits]. rewrite H. reflexivity. Qed.

Lemma int_digits_str_digits (fuel : nat) :
  forall (n : N) (acc : str) (b : bool),
    (n < 2 ^ N.of_nat fuel)%N ->
    int_digits 0 b (str_digits (S fuel) n acc) = int_digits (Z.of_N n) true acc.
Proof.
  induction fuel as [|fuel IH]; intros n acc b Hn.
  - change (2 ^ N.of_nat 0)%N with 1%N in Hn.
    assert (n = 0%N) by lia. subst n. reflexivity.
  - change (str_digits (S (S fuel)) n acc)
      with (if (n / 10 =? 0)%N then digit_char (n mod 10) :: acc
            else str_digits (S fuel) (n / 10) (digit_char (n mod 10) :: acc)).
    destruct (digit_char_props (n mod 10)) as [Hd Hv].
    { apply N.mod_lt. discriminate. }
    pose proof (N.div_mod n 10 ltac:(discriminate)) as Hdm.
    destruct (n / 10 =? 0)%N eqn:E.
    + apply N.eqb_eq in E. rewrite int_digits_digit, Hv by assumption.
      f_equal. lia.
    + rewrite IH.
      * rewrite int_digits_digit, Hv by assumption. f_equal. lia.
      * rewrite Nat2N.inj_succ, N.pow_succ_r' in Hn.
        apply N.Div0.div_lt_upper_bound. lia.
Qed.

Lemma size_nat_bound (n : N) : (n < 2 ^ N.of_nat (N.size_nat n))%N.
Proof.
  destruct n as [|p]; [reflexivity|].
  change (N.size_nat (N.pos p)) with (Pos.size_nat p).
  induction p as [p IH|p IH|]; cbn [Pos.size_nat];
    rewrite ?Nat2N.inj_succ, ?N.pow_succ_r'; lia.
Qed.

Lemma str_of_N_digits (n : N) : Forall (fun c => is_digit c = true) (str_of_N n).
Proof. apply str_digits_digits. constructor. Qed.

Lemma int_digits_str_of_N (n : N) (b : bool) :
  int_digits 0 b (str_of_N n) = Some (Z.of_N n).
Proof.
  unfold str_of_N. rewrite int_digits_str_digits by apply size_nat_bound.
  reflexivity.
Qed.

Lemma is_digit_code (c : ascii) :
  is_digit c = true -> (48 <= code c <= 57)%nat.
Proof.
  unfold is_digit, between. rewrite andb_true_iff, !Nat.leb_le. tauto.
Qed.

Lemma is_digit_not_space (c : ascii) : is_digit c = true -> is_int_space c = false.
Proof.
  intros H. apply is_digit_code in H. unfold is_int_space, between.
  repeat match goal with
         | |- context [(?a <=? ?b)%nat] => destruct (Nat.leb_spec a b)
         | |- context [(?a =? ?b)%nat] => destruct (Nat.eqb_spec a b)
         end; simpl; try reflexivity; lia.
Qed.

Lemma is_digit_neq (c d : ascii) :
  is_digit c = true -> is_digit d = false -> Ascii.eqb c d = false.
Proof.
  intros Hc Hd. destruct (Ascii.eqb c d) eqn:E; [|reflexivity].
  apply Ascii.eqb_eq in E. congruence.
Qed.

Lemma lstrip_id (s : str) : Forall (fun c => is_int_space c = false) s -> lstrip s = s.
Proof.
  intros H. destruct H as [|c s Hc _]; simpl; [reflexivity|].
  rewrite Hc. reflexivity.
Qed.

Lemma strip_id (s : str) : Forall (fun c => is_int_space c = false) s -> strip s = s.
Proof.
  intros H. unfold strip. rewrite (lstrip_id s H).
  rewrite lstrip_id by (apply Forall_rev; assumption).
  apply rev_involutive.
Qed.

Lemma str_of_int_no_space (z : Z) :
  Forall (fun c => is_int_space c = false) (str_of_int z).
Proof.
  assert (H : forall n, Forall (fun c => is_int_space c = false) (str_of_N n)).
  { intros n. eapply Forall_impl; [|apply str_of_N_digits].
    intros c. apply is_digit_not_space. }
  unfold str_of_int. destruct (z <? 0)%Z; [constructor; [reflexivity|]|]; apply H.
Qed.

(** [int(str(z)) == z]. *)
Lemma int_str_of_int (z : Z) : int (str_of_int z) = Return z.
Proof.
  unfold int. rewrite strip_id by apply str_of_int_no_space.
  unfold str_of_int. destruct (z <? 0)%Z eqn:E.
  - apply Z.ltb_lt in E.
    change (Ascii.eqb "-" "-") with true. cbv iota.
    rewrite int_digits_str_of_N. simpl. f_equal. lia.
  - apply Z.ltb_ge in E.
    pose proof (str_of_N_digits (Z.to_N z)) as Hd.
    pose proof (int_digits_str_of_N (Z.to_N z) false) as Hi.
    destruct (str_of_N (Z.to_N z)) as [|c r] eqn:Es.
    + simpl in Hi. discriminate.
    + inversion Hd as [|? ? Hc _]; subst.
      rewrite (is_digit_neq c "-" Hc eq_refl), (is_digit_neq c "+" Hc eq_refl).
      rewrite Hi. f_equal. lia.
Qed.

Lemma str_of_int_free (z : Z) (c : ascii) :
  is_digit c = false -> c <> "-"%char -> ~ In c (str_of_int z).
Proof.
  intros Hc Hm Hin.
  assert (H : forall n, ~ In c (str_of_N n)).
  { intros n Hn. pose proof (str_of_N_digits n) as Hd.
    rewrite Forall_forall in Hd. apply Hd in Hn. congruence. }
  unfold str_of_int in Hin. destruct (z <? 0)%Z.
  - destruct Hin as [Hin|Hin]; [congruence | exact (H _ Hin)].
  - exact (H _ Hin).
Qed.

(** *** The digit limit *)

Local Open Scope Z_scope.

Lemma digits_in_cons (c : ascii) (s : str) :
  digits_in (c :: s) = if is_digit c then 1 + digits_in s else digits_in s.
Proof.
  unfold digits_in, len. cbn [filter]. destruct (is_digit c); [|reflexivity].
  cbn [List.length]. lia.
Qed.

Lemma digits_in_nonneg (s : str) : 0 <= digits_in s.
Proof. unfold digits_in, len. lia. Qed.

Lemma digits_in_app (a b : str) : digits_in (a ++ b) = digits_in a + digits_in b.
Proof. unfold digits_in, len. rewrite filter_app, length_app. lia. Qed.

Lemma digits_in_rev (s : str) : digits_in (rev s) = digits_in s.
Proof. unfold digits_in, len. rewrite filter_rev, length_rev. reflexivity. Qed.

Lemma lstrip_suffix (s : str) : exists p, s = p ++ lstrip s.
Proof.
  induction s as [|c s [p IH]]; [exists []; reflexivity|].
  cbn [lstrip]. destruct (is_int_space c).
  - exists (c :: p). cbn [app]. f_equal. exact IH.
  - exists []. reflexivity.
Qed.

Lemma digits_in_lstrip (s : str) : digits_in (lstrip s) <= digits_in s.
Proof.
  destruct (lstrip_suffix s) as [p E]. rewrite E at 2. rewrite digits_in_app.
  pose proof (digits_in_nonneg p). lia.
Qed.

Lemma digits_in_strip (s : str) : digits_in (strip s) <= digits_in s.
Proof.
  unfold strip. rewrite digits_in_rev.
  pose proof (digits_in_lstrip (rev (lstrip s))) as H1.
  rewrite digits_in_rev in H1. pose proof (digits_in_lstrip s). lia.
Qed.

Lemma digit_val_bound (c : ascii) : is_digit c = true -> 0 <= digit_val c <= 9.
Proof. intros H. apply is_digit_code in H. unfold digit_val. lia. Qed.

(** The value of a literal of [k] digits is below [10 ** k]. *)
Lemma int_digits_bound (s : str) :
  forall (acc : Z) (b : bool) (z : Z),
    0 <= acc -> int_digits acc b s = Some z ->
    acc * 10 ^ digits_in s <= z < (acc + 1) * 10 ^ digits_in s.
Proof.
  induction s as [|c s IH]; intros acc b z Hacc H.
  - cbn [int_digits] in H. destruct b; [|discriminate H]. injection H as <-.
    change (digits_in []) with 0. rewrite Z.pow_0_r. lia.
  - cbn [int_digits] in H. rewrite digits_in_cons.
    destruct (is_digit c) eqn:Ed.
    + pose proof (digit_val_bound c Ed) as Hd.
      apply IH in H; [|lia].
      pose proof (digits_in_nonneg s) as Hk.
      replace (1 + digits_in s) with (Z.succ (digits_in s)) by lia.
      rewrite Z.pow_succ_r by exact Hk.
      assert (Hp : 0 < 10 ^ digits_in s) by (apply Z.pow_pos_nonneg; lia).
      set (P := 10 ^ digits_in s) in *. clearbody P. nia.
    + destruct (Ascii.eqb c "_" && b); [|discriminate H].
      apply IH in H; assumption.
Qed.

Lemma int_bound (s : str) (z : Z) :
  int s = Return z -> Z.abs z < 10 ^ digits_in s.
Proof.
  unfold int. intros H.
  assert (Hmono : forall r, digits_in r <= digits_in (strip s) ->
                            10 ^ digits_in r <= 10 ^ digits_in s).
  { intros r Hr. apply Z.pow_le_mono_r; [lia|].
    pose proof (digits_in_strip s). lia. }
  assert (Hd : forall r z', digits_in r <= digits_in (strip s) ->
                 int_digits 0 false r = Some z' -> 0 <= z' < 10 ^ digits_in s).
  { intros r z' Hr Hz. apply int_digits_bound in Hz; [|lia].
    specialize (Hmono r Hr). lia. }
  destruct (strip s) as [|c r] eqn:Es; [discriminate H|].
  assert (Hr : digits_in r <= digits_in (c :: r)).
  { rewrite digits_in_cons. destruct (is_digit c); lia. }
  destruct (Ascii.eqb c "-").
  - destruct (int_digits 0 false r) as [z'|] eqn:Ez; [|discriminate H].
    cbn [option_map] in H. injection H as <-.
    specialize (Hd r z' Hr Ez). lia.
  - destruct (Ascii.eqb c "+").
    + destruct (int_digits 0 false r) as [z'|] eqn:Ez; [|discriminate H].
      injection H as <-. specialize (Hd r z' Hr Ez). lia.
    + destruct (int_digits 0 false (c :: r)) as [z'|] eqn:Ez; [|discriminate H].
      injection H as <-. specialize (Hd (c :: r) z' (Z.le_refl _) Ez). lia.
Qed.

Lemma int_limited_int (s : str) (z : Z) :
  int_limited s = Return z <->
  int s = Return z /\ digits_in s <= int_max_str_digits.
Proof.
  unfold int_limited. destruct (int s) as [z'|e]; cbn [bind].
  - destruct (Z.ltb_spec int_max_str_digits (digits_in s)); split.
    + discriminate.
    + intros [_ H']. lia.
    + intros E. split; [exact E | lia].
    + intros [E _]. exact E.
  - split; [discriminate | intros [E _]; discriminate E].
Qed.

Lemma int_limited_raises (s : str) (e : exn) :
  int_limited s = Raise e -> e = ValueError.
Proof.
  unfold int_limited, int.
  destruct (match strip s with [] => None | _ => _ end); cbn [bind];
    [destruct (_ <? _)|]; congruence.
Qed.


(** What [int] reads within the limit is below [10 ** 4300]. *)
Lemma int_limited_bound (s : str) (z : Z) :
  int_limited s = Return z -> Z.abs z < 10 ^ int_max_str_digits.
Proof.
  intros H. apply int_limited_int in H. destruct H as [H Hd].
  apply int_bound in H.
  assert (10 ^ digits_in s <= 10 ^ int_max_str_digits)
    by (apply Z.pow_le_mono_r; [lia | exact Hd]).
  lia.
Qed.

Lemma filter_all {A} (p : A -> bool) (l : list A) :
  Forall (fun x => p x = true) l -> filter p l = l.
Proof.
  induction 1 as [|x l Hx _ IH]; [reflexivity|].
  cbn [filter]. rewrite Hx, IH. reflexivity.
Qed.

Lemma str_digits_length (fuel : nat) :
  forall (k : nat) (n : N) (acc : str),
    (1 <= k)%nat -> (n < 10 ^ N.of_nat k)%N ->
    (List.length (str_digits fuel n acc) <= List.length acc + k)%nat.
Proof.
  induction fuel as [|fuel IH]; intros k n acc Hk Hn; cbn [str_digits]; [lia|].
  destruct (n / 10 =? 0)%N eqn:E.
  - cbn [List.length]. lia.
  - apply N.eqb_neq in E.
    destruct k as [|[|k]]; [lia| |].
    + change (10 ^ N.of_nat 1)%N with 10%N in Hn.
      elim E. apply N.div_small. exact Hn.
    + eapply Nat.le_trans; [apply (IH (S k)); [lia|]|cbn [List.length]; lia].
      rewrite (Nat2N.inj_succ (S k)), N.pow_succ_r' in Hn.
      apply N.Div0.div_lt_upper_bound. exact Hn.
Qed.

Lemma str_of_int_digits_in (z : Z) :
  Z.abs z < 10 ^ int_max_str_digits ->
  digits_in (str_of_int z) <= int_max_str_digits.
Proof.
  intros Hz.
  assert (Hn : forall n : N, (Z.of_N n < 10 ^ int_max_str_digits) ->
                 digits_in (str_of_N n) <= int_max_str_digits).
  { intros n Hn. unfold digits_in, len. rewrite (filter_all _ _ (str_of_N_digits n)).
    unfold str_of_N.
    pose proof (str_digits_length (S (N.size_nat n)) (Z.to_nat int_max_str_digits) n []) as H.
    cbn [List.length] in H.
    assert (Hk : Z.of_nat (Z.to_nat int_max_str_digits) = int_max_str_digits)
      by (apply Z2Nat.id; discriminate).
    assert (H1 : (1 <= Z.to_nat int_max_str_digits)%nat).
    { apply Nat2Z.inj_le. rewrite Hk. discriminate. }
    specialize (H H1).
    assert (H2 : (n < 10 ^ N.of_nat (Z.to_nat int_max_str_digits))%N).
    { apply N2Z.inj_lt. rewrite N2Z.inj_pow, nat_N_Z, Hk. exact Hn. }
    specialize (H H2). lia. }
  unfold str_of_int. destruct (Z.ltb_spec z 0).
  - rewrite digits_in_cons. change (is_digit "-") with false. cbv iota.
    apply Hn. rewrite Z2N.id by lia. lia.
  - apply Hn. rewrite Z2N.id by lia. lia.
Qed.

(** [int(str(z)) == z] within the limit. *)
Lemma int_limited_str_of_int (z : Z) :
  Z.abs z < 10 ^ int_max_str_digits -> int_limited (str_of_int z) = Return z.
Proof.
  intros Hz. apply int_limited_int. split; [apply int_str_of_int|].
  apply str_of_int_digits_in. exact Hz.
Qed.

Lemma str_limited_within (z : Z) :
  Z.abs z < 10 ^ int_max_str_digits -> str_limited z = Return (str_of_int z).
Proof.
  intros Hz. unfold str_limited.
  destruct (Z.leb_spec (10 ^ int_max_str_digits) (Z.abs z)); [lia | reflexivity].
Qed.

Lemma str_limited_beyond (z : Z) :
  10 ^ int_max_str_digits <= Z.abs z -> str_limited z = Raise ValueError.
Proof.
  intros Hz. unfold str_limited.
  destruct (Z.leb_spec (10 ^ int_max_str_digits) (Z.abs z)); [reflexivity | lia].
Qed.

Lemma str_limited_cases (z : Z) :
  (Z.abs z < 10 ^ int_max_str_digits /\ str_limited z = Return (str_of_int z))
  \/ (10 ^ int_max_str_digits <= Z.abs z /\ str_limited z = Raise ValueError).
Proof.
  destruct (Z.lt_ge_cases (Z.abs z) (10 ^ int_max_str_digits)).
  - left. split; [assumption | apply str_limited_within; assumption].
  - right. split; [assumption | apply str_limited_beyond; assumption].
Qed.



Local Close Scope Z_scope.

End PyFacts.

(** ** The command parser *)

Module CommandFacts.
Import Command.

Lemma eqb_eq (a b : Command) : eqb a b = true <-> a = b.
Proof. destruct a, b; simpl; split; congruence. Qed.

Lemma members_complete (c : Command) : In c members.
Proof. destruct c; simpl; tauto. Qed.

Lemma members_NoDup : NoDup members.
Proof.
  unfold members.
  repeat (constructor; [simpl; intuition discriminate|]).
  constructor.
Qed.

Lemma collect_filter (lower_s : str) (cmds acc : list Command) :
  collect lower_s cmds acc = acc ++ filter (candidate lower_s) cmds.
Proof.
  revert acc; induction cmds as [|cmd rest IH]; intros acc; simpl.
  - rewrite app_nil_r. reflexivity.
  - unfold candidate at 1. destruct (eqb cmd QUIT); simpl; [apply IH|].
    destruct (startswith (value cmd) lower_s); [|apply IH].
    rewrite IH, <- app_assoc. reflexivity.
Qed.

(** [parse] on a non-empty input, by the list of candidates. *)
Lemma parse_candidates (s : str) :
  s <> [] ->
  parse s =
    if startswith (value QUIT) s then Return (Some QUIT)
    else match filter (candidate (lower s)) members with
         | [] => Return None
         | [c] => Return (Some c)
         | _ :: _ :: _ => Raise AmbiguousCommandError
         end.
Proof.
  intros Hne. destruct s as [|a s]; [congruence|].
  unfold parse. destruct (startswith (value QUIT) (a :: s)); [reflexivity|].
  cbv zeta. rewrite collect_filter. cbn [app].
  destruct (filter (candidate (lower (a :: s))) members) as [|c [|d l]]; reflexivity.
Qed.

Lemma matches_candidate (c : Command) (s : str) :
  matches c s = if eqb c QUIT then startswith (value QUIT) s else candidate (lower s) c.
Proof. unfold matches, candidate. destruct (eqb c QUIT); reflexivity. Qed.

Lemma filter_nil_iff {A} (p : A -> bool) (l : list A) :
  filter p l = [] <-> forall x, In x l -> p x = false.
Proof.
  induction l as [|a l IH]; simpl; [tauto|].
  destruct (p a) eqn:E.
  - split; [discriminate|]. intros H. specialize (H a (or_introl eq_refl)). congruence.
  - rewrite IH. split.
    + intros H x [<-|Hx]; auto.
    + intros H x Hx. apply H. auto.
Qed.

Lemma filter_unique {A} (p : A -> bool) (l : list A) (c : A) :
  NoDup l -> In c l -> p c = true ->
  (forall x, In x l -> p x = true -> x = c) ->
  filter p l = [c].
Proof.
  induction l as [|a l IH]; intros Hnd Hin Hc Huniq; [destruct Hin|].
  inversion Hnd as [|? ? Hnotin Hnd']; subst.
  simpl. destruct Hin as [->|Hin].
  - rewrite Hc. f_equal. apply filter_nil_iff. intros x Hx.
    destruct (p x) eqn:E; [|reflexivity].
    assert (x = c) by (apply Huniq; simpl; auto). subst x. contradiction.
  - destruct (p a) eqn:E.
    + assert (a = c) by (apply Huniq; simpl; auto). subst a. contradiction.
    + apply IH; auto. intros x Hx. apply Huniq. simpl; auto.
Qed.

Lemma startswith_prefixes (v s : str) :
  startswith v s = true -> In s (prefixes v).
Proof.
  revert s; induction v as [|d v IH]; intros [|c s]; simpl; try tauto; try discriminate.
  rewrite andb_true_iff, Ascii.eqb_eq. intros [-> H].
  right. apply in_map. apply IH. exact H.
Qed.

Lemma parse_full_literal (c : Command) : parse (value c) = Return (Some c).
Proof. destruct c; reflexivity. Qed.

Lemma filter_two {A} (p : A -> bool) (l : list A) (a b : A) :
  a <> b -> In a l -> In b l -> p a = true -> p b = true ->
  exists x y rest, filter p l = x :: y :: rest.
Proof.
  intros Hab Ha Hb Hpa Hpb.
  assert (Hina : In a (filter p l)) by (apply filter_In; auto).
  assert (Hinb : In b (filter p l)) by (apply filter_In; auto).
  destruct (filter p l) as [|x [|y rest]].
  - destruct Hina.
  - destruct Hina as [<-|[]]. destruct Hinb as [<-|[]]. congruence.
  - exists x, y, rest. reflexivity.
Qed.

Lemma parse_quit_prefix (s : str) :
  s <> [] -> startswith (value QUIT) s = true -> parse s = Return (Some QUIT).
Proof. intros Hne H. rewrite (parse_candidates _ Hne), H. reflexivity. Qed.

Lemma parse_unique_match (c : Command) (s : str) :
  matches c s = true -> (forall c', matches c' s = true -> c' = c) ->
  parse s = Return (Some c).
Proof.
  intros Hc Huniq. destruct s as [|a s].
  - assert (LOAD = c) by (apply Huniq; reflexivity).
    assert (LOOK = c) by (apply Huniq; reflexivity).
    congruence.
  - rewrite parse_candidates by discriminate.
    destruct (startswith (value QUIT) (a :: s)) eqn:Hq.
    + f_equal. f_equal. apply Huniq. rewrite matches_candidate. exact Hq.
    + rewrite matches_candidate in Hc.
      destruct (eqb c QUIT) eqn:Ec; [congruence|].
      rewrite (filter_unique _ members c); auto using members_NoDup, members_complete.
      intros x _ Hx. apply Huniq. rewrite matches_candidate.
      destruct (eqb x QUIT) eqn:Ex; [|exact Hx].
      unfold candidate in Hx. rewrite Ex in Hx. discriminate Hx.
Qed.

Lemma parse_shared_match (s : str) (c1 c2 : Command) :
  s <> [] -> startswith (value QUIT) s = false -> c1 <> c2 ->
  matches c1 s = true -> matches c2 s = true ->
  parse s = Raise AmbiguousCommandError.
Proof.
  intros Hne Hq Hdiff H1 H2. rewrite (parse_candidates _ Hne), Hq.
  rewrite matches_candidate in H1, H2.
  destruct (eqb c1 QUIT); [congruence|]. destruct (eqb c2 QUIT); [congruence|].
  destruct (filter_two (candidate (lower s)) members c1 c2 Hdiff
              (members_complete c1) (members_complete c2) H1 H2)
    as (x & y & rest & E).
  rewrite E. reflexivity.
Qed.

(** C3, as stated, fails at the input [Q]: [parse] tests an input against
    [Quit] as typed and against the other literals in lower case, so [Q]
    matches [Quit] and [quantopedia], and is a prefix of both once case
    is ignored; [parse] returns [QUIT] for it instead of raising
    [AmbiguousCommandError]. *)
Lemma parse_Q_shared_prefix_not_ambiguous :
  QUIT <> QUANTOPEDIA
  /\ matches QUIT (lit "Q") = true
  /\ matches QUANTOPEDIA (lit "Q") = true
  /\ startswith (lower (value QUIT)) (lower (lit "Q")) = true
  /\ startswith (lower (value QUANTOPEDIA)) (lower (lit "Q")) = true
  /\ parse (lit "Q") = Return (Some QUIT)
  /\ ~ (forall (s : str) (c1 c2 : Command),
          c1 <> c2 -> matches c1 s = true -> matches c2 s = true ->
          parse s = Raise AmbiguousCommandError).
Proof.
  repeat split; try reflexivity; try discriminate.
  intros H. specialize (H (lit "Q") QUIT QUANTOPEDIA).
  discriminate H; [discriminate | reflexivity | reflexivity].
Qed.

(** C3 (amended): an input matches [Quit] when it is a prefix of [Quit]
    as typed, and any other command when its lower-cased form is a prefix
    of that command's literal.  Parsing the full literal of a command
    returns that command; parsing an input that matches exactly one
    command returns that command; parsing a non-empty input that matches
    two or more commands and is no prefix of [Quit] as typed raises
    [AmbiguousCommandError]; parsing a non-empty prefix of [Quit] as
    typed returns [QUIT], whatever else it matches; the empty input
    returns [None]. *)
Theorem parse_literals_and_prefixes :
  (forall c, parse (value c) = Return (Some c))
  /\ (forall c s, matches c s = true ->
        (forall c', matches c' s = true -> c' = c) ->
        parse s = Return (Some c))
  /\ (forall s c1 c2, s <> [] -> startswith (value QUIT) s = false ->
        c1 <> c2 -> matches c1 s = true -> matches c2 s = true ->
        parse s = Raise AmbiguousCommandError)
  /\ (forall s, s <> [] -> startswith (value QUIT) s = true ->
        parse s = Return (Some QUIT))
  /\ parse [] = Return None.
Proof.
  split; [exact parse_full_literal|].
  split; [exact parse_unique_match|].
  split; [exact parse_shared_match|].
  split; [exact parse_quit_prefix | reflexivity].
Qed.

Lemma parse_literals_and_prefixes_witness :
  parse (lit "quantopedia") = Return (Some QUANTOPEDIA)
  /\ parse (lit "St") = Return (Some STATUS)
  /\ parse (lit "S") = Raise AmbiguousCommandError
  /\ parse (lit "LO") = Raise AmbiguousCommandError
  /\ parse (lit "Qu") = Return (Some QUIT).
Proof.
  destruct parse_literals_and_prefixes as (Hfull & Huniq & Hshared & Hquit & _).
  split; [exact (Hfull QUANTOPEDIA)|]. split; [|split; [|split]].
  - apply (Huniq STATUS (lit "St")); [reflexivity|].
    intros c' H; destruct c'; first [reflexivity | discriminate H].
  - apply (Hshared (lit "S") STATUS SAVE);
      first [discriminate | reflexivity].
  - apply (Hshared (lit "LO") LOAD LOOK);
      first [discriminate | reflexivity].
  - apply (Hquit (lit "Qu")); [discriminate | reflexivity].
Defined.

(** C6: [parse] returns [None] exactly when the input is empty or, being
    non-empty, matches no command literal; when exactly one command
    matches, [parse] returns that command. *)
Theorem parse_none_exactly (s : str) :
  (parse s = Return None <->
     s = [] \/ (s <> [] /\ forall c, matches c s = false))
  /\ (forall c, matches c s = true ->
        (forall c', matches c' s = true -> c' = c) ->
        parse s = Return (Some c)).
Proof.
  destruct s as [|a s].
  - split.
    + split; [left; reflexivity | reflexivity].
    + intros c _ Huniq.
      assert (LOAD = c) by (apply Huniq; reflexivity).
      assert (LOOK = c) by (apply Huniq; reflexivity).
      congruence.
  - assert (Hne : a :: s <> []) by discriminate.
    rewrite (parse_candidates _ Hne).
    split; [split|].
    + intros H. right. split; [assumption|]. intros c.
      rewrite matches_candidate.
      destruct (startswith (value QUIT) (a :: s)); [discriminate|].
      destruct (eqb c QUIT); [reflexivity|].
      destruct (filter _ members) as [|x [|y l]] eqn:E; try discriminate.
      rewrite filter_nil_iff in E. apply E, members_complete.
    + intros [H|[_ H]]; [congruence|].
      pose proof (H QUIT) as Hq.
      change (startswith (value QUIT) (a :: s) = false) in Hq.
      rewrite Hq.
      replace (filter (candidate (lower (a :: s))) members) with (@nil Command);
        [reflexivity|].
      symmetry. apply filter_nil_iff. intros c _.
      specialize (H c). rewrite matches_candidate in H.
      unfold candidate in *. destruct (eqb c QUIT); [reflexivity | exact H].
    + intros c Hc Huniq.
      destruct (startswith (value QUIT) (a :: s)) eqn:Hq.
      * f_equal. f_equal. apply Huniq. rewrite matches_candidate. exact Hq.
      * rewrite matches_candidate in Hc.
        destruct (eqb c QUIT) eqn:Ec; [congruence|].
        rewrite (filter_unique _ members c); auto using members_NoDup, members_complete.
        intros x _ Hx. apply Huniq. rewrite matches_candidate.
        destruct (eqb x QUIT) eqn:Ex; [|exact Hx].
        unfold candidate in Hx. rewrite Ex in Hx. discriminate Hx.
Qed.

Lemma parse_none_exactly_witness :
  parse (lit "xyzzy") = Return None /\ parse (lit "HE") = Return (Some HELP).
Proof.
  split.
  - apply (parse_none_exactly (lit "xyzzy")). right.
    split; [discriminate|]. intros c; destruct c; reflexivity.
  - apply (parse_none_exactly (lit "HE")); [reflexivity|].
    intros c' H; destruct c'; first [reflexivity | discriminate H].
Defined.

(** C10: [Quit] is matched case-sensitively and first, and is left out
    of the case-insensitive pass: [parse("Q")] is [QUIT], [parse("q")] is
    [QUANTOPEDIA], although ["q"] is, case-insensitively, a prefix of
    both literals. *)
Theorem parse_Q_quit_q_quantopedia :
  parse (lit "Q") = Return (Some QUIT)
  /\ parse (lit "q") = Return (Some QUANTOPEDIA)
  /\ startswith (lower (value QUIT)) (lower (lit "q")) = true
  /\ startswith (lower (value QUANTOPEDIA)) (lower (lit "q")) = true
  /\ (forall s, s <> [] -> startswith (value QUIT) s = true ->
        parse s = Return (Some QUIT))
  /\ (forall s, parse s = Return (Some QUIT) -> startswith (value QUIT) s = true).
Proof.
  repeat split; try reflexivity.
  - intros s Hne H. rewrite (parse_candidates _ Hne), H. reflexivity.
  - intros s H. destruct s as [|a s]; [reflexivity|].
    rewrite parse_candidates in H by discriminate.
    destruct (startswith (value QUIT) (a :: s)); [reflexivity|].
    destruct (filter _ members) as [|x [|y l]] eqn:E; try discriminate.
    injection H as ->.
    assert (Hin : In QUIT (filter (candidate (lower (a :: s))) members))
      by (rewrite E; simpl; auto).
    apply filter_In in Hin. destruct Hin as [_ Hin]. discriminate Hin.
Qed.

Lemma parse_Q_quit_q_quantopedia_witness :
  parse (lit "Qui") = Return (Some QUIT).
Proof.
  destruct parse_Q_quit_q_quantopedia as (_ & _ & _ & _ & H & _).
  apply H; [discriminate | reflexivity].
Defined.

End CommandFacts.

(** ** The input helpers *)

Module InputHelpersFacts.
Import InputHelpers.

Lemma calls_scripted (l : list str) :
  forall prompts : list str,
    List.length prompts = List.length l ->
    calls (Scripted l) prompts = (Scripted [], map Return l).
Proof.
  induction l as [|x l IH]; intros [|p prompts] Hlen; try discriminate Hlen.
  - reflexivity.
  - cbn [calls call]. rewrite IH by (simpl in Hlen; lia). reflexivity.
Qed.

Lemma calls_scripted_more (l : list str) :
  forall (prompts : list str) (extra : str),
    List.length prompts = List.length l ->
    calls (Scripted l) (prompts ++ [extra])
    = (Scripted [], map Return l ++ [Raise StopIteration]).
Proof.
  induction l as [|x l IH]; intros [|p prompts] extra Hlen; try discriminate Hlen.
  - reflexivity.
  - cbn [calls call app]. rewrite IH by (simpl in Hlen; lia). reflexivity.
Qed.

(** C8: the function returned for a recorded sequence of [n] strings
    returns them in order, whatever the prompts, on the first [n] calls,
    and raises [StopIteration] on call [n + 1]. *)
Theorem scripted_input_in_order_then_raises
  (l stdin prompts : list str) (extra : str) :
  List.length prompts = List.length l ->
  let f := get_user_input_function (Some l) stdin in
  calls f prompts = (Scripted [], map Return l)
  /\ call (fst (calls f prompts)) extra = (Scripted [], Raise StopIteration)
  /\ calls f (prompts ++ [extra])
     = (Scripted [], map Return l ++ [Raise StopIteration]).
Proof.
  intros Hlen f. unfold f, get_user_input_function.
  rewrite calls_scripted by assumption.
  split; [reflexivity|]. split; [reflexivity|].
  apply calls_scripted_more. assumption.
Qed.

Lemma scripted_input_in_order_then_raises_witness :
  calls (get_user_input_function (Some [lit "n"; lit "Quit"]) [])
    [lit ">"; lit ">"; lit ">"]
  = (Scripted [], [Return (lit "n"); Return (lit "Quit"); Raise StopIteration]).
Proof.
  apply (scripted_input_in_order_then_raises
           [lit "n"; lit "Quit"] [] [lit ">"; lit ">"] (lit ">")).
  reflexivity.
Defined.

Lemma int_raises_ValueError (s : str) (e : exn) : int s = Raise e -> e = ValueError.
Proof.
  unfold int. destruct (match strip s with [] => None | _ => _ end); congruence.
Qed.

Lemma number_loop_returns (stop : exn) (max_number : option Z) (inv : str) :
  forall (lines : list str) (file : list printed)
         (rest : list str) (file' : list printed) (v : Z),
    number_loop stop lines max_number inv file = (rest, file', Return v) ->
    in_range max_number v = true
    /\ exists rejected line,
         lines = rejected ++ line :: rest
         /\ int line = Return v
         /\ Forall (fun r => forall w, int r = Return w -> in_range max_number w = false)
              rejected
         /\ List.length file' = (List.length file + List.length rejected)%nat.
Proof.
  induction lines as [|line lines IH]; intros file rest file' v H; simpl in H.
  - discriminate H.
  - destruct (int line) as [w|e] eqn:Ei.
    + destruct (in_range max_number w) eqn:Er.
      * injection H as <- <- <-. split; [assumption|].
        exists [], line.
        split; [reflexivity|]. split; [assumption|]. split; [constructor | simpl; lia].
      * apply IH in H. destruct H as (Hv & rejected & l & -> & Hl & Hrej & Hlen).
        split; [assumption|].
        exists (line :: rejected), l.
        split; [reflexivity|]. split; [assumption|]. split.
        -- constructor; [|assumption]. intros w' Hw'. congruence.
        -- rewrite Hlen, length_app. simpl. lia.
    + apply IH in H. destruct H as (Hv & rejected & l & -> & Hl & Hrej & Hlen).
      split; [assumption|].
      exists (line :: rejected), l.
      split; [reflexivity|]. split; [assumption|]. split.
      * constructor; [|assumption]. intros w' Hw'. congruence.
      * rewrite Hlen, length_app. simpl. lia.
Qed.


Lemma number_loop_exhausted (stop : exn) (max_number : option Z) (inv : str) :
  forall (lines : list str) (file : list printed),
    Forall (fun r => forall w, int r = Return w -> in_range max_number w = false)
      lines ->
    exists file', number_loop stop lines max_number inv file = ([], file', Raise stop).
Proof.
  induction lines as [|r lines IH]; intros file Hrej.
  - simpl. eauto.
  - inversion Hrej as [|? ? Hr Hrej']; subst.
    cbn [number_loop]. destruct (int r) as [w|e] eqn:Er.
    + rewrite (Hr w eq_refl). apply IH; assumption.
    + apply IH; assumption.
Qed.

Lemma pending_with_pending (f : source) (p : list str) : pending (with_pending f p) = p.
Proof. destruct f; reflexivity. Qed.



End InputHelpersFacts.

(** ** Dictionaries *)

Module DictFacts.
Import PyFacts.

Lemma get_set_same (d : Dict.dict) (k v : str) : Dict.get (Dict.set d k v) k = Some v.
Proof.
  induction d as [|[k' v'] d IH]; simpl.
  - rewrite str_eqb_refl. reflexivity.
  - destruct (str_eqb k' k) eqn:E; simpl; rewrite E; [reflexivity | exact IH].
Qed.

Lemma set_fresh (d : Dict.dict) (k v : str) :
  ~ In k (map fst d) -> Dict.set d k v = d ++ [(k, v)].
Proof.
  induction d as [|[k' v'] d IH]; simpl; intros H; [reflexivity|].
  destruct (str_eqb k' k) eqn:E.
  - apply str_eqb_eq in E. tauto.
  - rewrite IH by tauto. reflexivity.
Qed.

End DictFacts.

(** ** The game state: quantopedia bits and save tokens *)

Module GameStateFacts.
Import PyFacts DictFacts GameState.



Section WithQaracter.
Context {Q : QaracterAPI}.

Lemma has_quantopedia_value (self : GameState) (v : str) (z m : Z) :
  Dict.get (state_dict self) _QUANTOPEDIA_KEY = Some v -> int_limited v = Return z ->
  has_quantopedia self m = Return (negb (Z.land z m =? 0)%Z).
Proof.
  intros Hg Hi. unfold has_quantopedia, Dict.contains, Dict.getitem.
  rewrite Hg. cbn [negb bind]. rewrite Hi. reflexivity.
Qed.

Lemma has_quantopedia_absent (self : GameState) (m : Z) :
  Dict.get (state_dict self) _QUANTOPEDIA_KEY = None ->
  has_quantopedia self m = Return false.
Proof.
  intros Hg. unfold has_quantopedia, Dict.contains. rewrite Hg. reflexivity.
Qed.

Lemma set_quantopedia_value (self : GameState) (v : str) (z n : Z) :
  Dict.get (state_dict self) _QUANTOPEDIA_KEY = Some v -> int_limited v = Return z ->
  set_quantopedia self n
  = match str_limited (Z.lor z n) with
    | Return s =>
        (set_state_dict self (Dict.set (state_dict self) _QUANTOPEDIA_KEY s),
         Return tt)
    | Raise e => (self, Raise e)
    end.
Proof.
  intros Hg Hi. unfold set_quantopedia, Dict.contains, Dict.getitem.
  rewrite Hg. cbn [negb bind]. rewrite Hg. cbn [bind]. rewrite Hi. reflexivity.
Qed.

Lemma set_quantopedia_absent (self : GameState) (n : Z) :
  Dict.get (state_dict self) _QUANTOPEDIA_KEY = None ->
  set_quantopedia self n
  = match str_limited n with
    | Return s =>
        (set_state_dict self
           (Dict.set (Dict.set (state_dict self) _QUANTOPEDIA_KEY (lit "0"))
              _QUANTOPEDIA_KEY s),
         Return tt)
    | Raise e =>
        (set_state_dict self (Dict.set (state_dict self) _QUANTOPEDIA_KEY (lit "0")),
         Raise e)
    end.
Proof.
  intros Hg. unfold set_quantopedia, Dict.contains, Dict.getitem.
  rewrite Hg. cbn [negb state_dict set_state_dict].
  rewrite get_set_same. cbn [bind].
  change (int_limited (lit "0")) with (Return 0%Z). cbv beta iota zeta.
  change (Z.lor 0 n) with n.
  destruct (str_limited n); reflexivity.
Qed.

(** A flag that [int] does not read makes both methods raise. *)
Lemma set_quantopedia_unreadable (self : GameState) (v : str) (e : exn) (n m : Z) :
  Dict.get (state_dict self) _QUANTOPEDIA_KEY = Some v ->
  int_limited v = Raise e ->
  set_quantopedia self n = (self, Raise ValueError)
  /\ has_quantopedia self m = Raise ValueError.
Proof.
  intros Hg Hi. pose proof (int_limited_raises v e Hi). subst e.
  unfold set_quantopedia, has_quantopedia, Dict.contains, Dict.getitem.
  rewrite Hg. cbn [negb bind]. rewrite Hg. cbn [bind]. rewrite Hi.
  split; reflexivity.
Qed.



End WithQaracter.



End GameStateFacts.

(** ** Save tokens: encoding, decoding, and failed loads *)

Module SaveFileFacts.
Import PyFacts DictFacts GameState.

Lemma getitem_middle {A} (pre : list A) (x : A) (post : list A) :
  Py.getitem (pre ++ x :: post) (len pre) = Return x.
Proof.
  unfold Py.getitem, len.
  destruct (Z.ltb_spec (Z.of_nat (List.length pre)) 0) as [H|_]; [lia|].
  destruct (Z.ltb_spec (Z.of_nat (List.length pre)) 0) as [H|_]; [lia|].
  rewrite Nat2Z.id, nth_error_app2 by lia. rewrite Nat.sub_diag. reflexivity.
Qed.

Lemma range_offset (lo : Z) (n : nat) :
  range lo (lo + Z.of_nat n) = map (fun k => (lo + Z.of_nat k)%Z) (seq 0 n).
Proof.
  unfold range. replace (lo + Z.of_nat n - lo)%Z with (Z.of_nat n) by lia.
  rewrite Nat2Z.id. reflexivity.
Qed.

Example to_save_file_example :
  to_save_file
    (Example.game (lit "hills") [lit "doug#Analyst#1"]
       [(lit "qp", lit "3"); (lit "door", lit "open")] [])
  = lit "hills;1;doug#Analyst#1;qp:3;door:open".
Proof. reflexivity. Qed.

Example to_save_file_empty : to_save_file (Example.game (lit "") [] [] []) = lit ";0".
Proof. reflexivity. Qed.

Example with_save_file_negative_count :
  with_save_file (Example.game (lit "start") [] [] []) (lit "a:b;-2")
  = (Example.game (lit "a:b") [] [(lit "a", lit "b")] [], Return RetSelf).
Proof. reflexivity. Qed.

Section WithQaracter.
Context {Q : QaracterAPI}.

Lemma to_save_file_join (self : GameState) :
  to_save_file self = join [_SAVE_DELIMITER] (segments self).
Proof.
  unfold to_save_file.
  rewrite (fold_left_append (fun p => Qaracter_to_save_file p ++ [_SAVE_DELIMITER])).
  rewrite (fold_left_append
             (fun kv => fst kv ++ [_DICT_DELIMITER] ++ snd kv ++ [_SAVE_DELIMITER])).
  rewrite <- (drop_last_terminated _SAVE_DELIMITER (segments self)) by discriminate.
  f_equal. unfold segments. cbn [map List.concat].
  rewrite map_app, concat_app, !map_map, <- !app_assoc. cbn [app].
  do 5 f_equal.
  f_equal. apply map_ext. intros kv. unfold flag_segment.
  rewrite <- !app_assoc. reflexivity.
Qed.

Lemma load_party_segments (ps : list Qaracter) :
  forall (pre post : list str) (acc : list Qaracter),
    Forall (fun p => Qaracter_from_save_file (Qaracter_to_save_file p) = Return p) ps ->
    load_party (pre ++ map Qaracter_to_save_file ps ++ post)
      (map (fun k => (len pre + Z.of_nat k)%Z) (seq 0 (List.length ps))) acc
    = Return (acc ++ ps).
Proof.
  induction ps as [|p ps IH]; intros pre post acc Hrt.
  - simpl. rewrite app_nil_r. reflexivity.
  - inversion Hrt as [|? ? Hp Hrest]; subst.
    cbn [List.length seq map load_party app].
    rewrite Z.add_0_r, getitem_middle. cbn [bind]. rewrite Hp. cbn [bind].
    rewrite <- seq_shift, map_map.
    replace (pre ++ Qaracter_to_save_file p :: map Qaracter_to_save_file ps ++ post)
      with ((pre ++ [Qaracter_to_save_file p]) ++ map Qaracter_to_save_file ps ++ post)
      by (rewrite <- app_assoc; reflexivity).
    rewrite (map_ext _ (fun k => (len (pre ++ [Qaracter_to_save_file p]) + Z.of_nat k)%Z)).
    + rewrite IH by assumption. rewrite <- app_assoc. reflexivity.
    + intros k. unfold len. rewrite length_app. simpl. lia.
Qed.

Lemma split_flag_segment (k v : str) :
  ~ In _DICT_DELIMITER k -> ~ In _DICT_DELIMITER v ->
  split ":"%char (flag_segment (k, v)) = [k; v].
Proof.
  intros Hk Hv. unfold flag_segment. cbn [fst snd app].
  change _DICT_DELIMITER with ":"%char in *.
  rewrite (split_app ":"%char k v Hk), (split_free ":"%char v Hv). reflexivity.
Qed.

Lemma load_state_dict_segments (d : Dict.dict) :
  forall acc : Dict.dict,
    Forall (fun kv => ~ In _DICT_DELIMITER (fst kv) /\ ~ In _DICT_DELIMITER (snd kv)) d ->
    NoDup (map fst (acc ++ d)) ->
    load_state_dict (map flag_segment d) acc = acc ++ d.
Proof.
  induction d as [|[k v] d IH]; intros acc Hclean Hnd.
  - simpl. rewrite app_nil_r. reflexivity.
  - inversion Hclean as [|? ? [Hk Hv] Hrest]; subst. cbn [fst snd] in Hk, Hv.
    cbn [map load_state_dict]. rewrite (split_flag_segment k v Hk Hv).
    rewrite set_fresh.
    + rewrite IH; [rewrite <- app_assoc; reflexivity | assumption |].
      rewrite <- app_assoc. exact Hnd.
    + rewrite map_app in Hnd. cbn [map fst] in Hnd.
      apply NoDup_remove_2 in Hnd. intros Hin. apply Hnd.
      apply in_or_app. left. exact Hin.
Qed.

(** Decoding the segments of a token whose fields are free of the two
    delimiters. *)
Lemma with_save_file_segments (live s : GameState) :
  Forall (fun seg => ~ In _SAVE_DELIMITER seg) (segments s) ->
  Forall (fun p => Qaracter_from_save_file (Qaracter_to_save_file p) = Return p)
    (party s) ->
  Forall (fun kv => ~ In _DICT_DELIMITER (fst kv) /\ ~ In _DICT_DELIMITER (snd kv))
    (state_dict s) ->
  Dict.wf (state_dict s) ->
  with_save_file live (to_save_file s)
  = (mkGameState (party s) (current_location_label s) (current_input live)
       (state_dict s) (get_user_input live),
     Return RetSelf).
Proof.
  intros Hsep Hrt Hclean Hwf.
  unfold with_save_file.
  rewrite to_save_file_join, split_join by (assumption || discriminate).
  set (label := current_location_label s).
  set (count := str_of_int (len (party s))).
  set (members := map Qaracter_to_save_file (party s)).
  set (flags := map flag_segment (state_dict s)).
  assert (Hsegs : segments s = [label; count] ++ members ++ flags) by reflexivity.
  assert (Hlen : len (segments s)
                 = (2 + len (party s) + Z.of_nat (List.length (state_dict s)))%Z).
  { rewrite Hsegs. unfold len, members, flags.
    rewrite !length_app, !length_map. simpl List.length. lia. }
  destruct (Z.ltb_spec (len (segments s)) 2) as [H|_]; [unfold len in *; lia|].
  rewrite Hsegs at 1. cbn [app].
  replace (Py.getitem (segments s) 1) with (Return count)
    by (rewrite Hsegs; reflexivity).
  cbn [bind]. unfold count at 1. rewrite int_str_of_int.
  destruct (Z.ltb_spec (len (segments s)) (2 + len (party s))) as [H|_];
    [unfold len in *; lia|].
  replace (load_party (segments s) (range 2 (2 + len (party s))) [])
    with (Return (party s)).
  2:{ rewrite Hsegs. unfold len. rewrite range_offset.
      symmetry. exact (load_party_segments (party s) [label; count] flags [] Hrt). }
  replace (slice_from (segments s) (2 + len (party s))) with flags.
  2:{ unfold slice_from.
      destruct (Z.ltb_spec (2 + len (party s)) 0) as [H|_]; [unfold len in *; lia|].
      rewrite Hsegs. replace (Z.to_nat (2 + len (party s)))
        with (List.length ([label; count] ++ members)).
      - rewrite app_assoc, skipn_app, skipn_all, Nat.sub_diag. reflexivity.
      - rewrite length_app. unfold members, len. rewrite length_map.
        simpl List.length. lia. }
  unfold flags. rewrite (load_state_dict_segments (state_dict s) []) by assumption.
  reflexivity.
Qed.

(** C2 (amended): for a state whose location label contains no [;],
    whose members are saved without [;] and are read back from what they
    save, and whose flag keys and values contain neither [;] nor [:],
    decoding the token of the state, into any live state, succeeds and
    yields the state's location label, its party in order, and its
    flags. *)
Theorem save_file_round_trip (live s : GameState) :
  ~ In _SAVE_DELIMITER (current_location_label s) ->
  Forall (fun p => ~ In _SAVE_DELIMITER (Qaracter_to_save_file p)
                   /\ Qaracter_from_save_file (Qaracter_to_save_file p) = Return p)
    (party s) ->
  Forall (fun kv => (~ In _SAVE_DELIMITER (fst kv) /\ ~ In _DICT_DELIMITER (fst kv))
                    /\ (~ In _SAVE_DELIMITER (snd kv) /\ ~ In _DICT_DELIMITER (snd kv)))
    (state_dict s) ->
  Dict.wf (state_dict s) ->
  exists live',
    with_save_file live (to_save_file s) = (live', Return RetSelf)
    /\ current_location_label live' = current_location_label s
    /\ party live' = party s
    /\ state_dict live' = state_dict s
    /\ (forall k v, In (k, v) (state_dict live') <-> In (k, v) (state_dict s)).
Proof.
  intros Hlabel Hparty Hflags Hwf.
  eexists. split; [apply with_save_file_segments|]; try assumption.
  - unfold segments. constructor; [assumption|].
    constructor; [apply str_of_int_free; [reflexivity | discriminate]|].
    apply Forall_app. split; apply Forall_map.
    + eapply Forall_impl; [|exact Hparty]. cbn beta. tauto.
    + eapply Forall_impl; [|exact Hflags]. intros [k v]. unfold flag_segment.
      cbn [fst snd]. intros [[Hk _] [Hv _]] Hin.
      apply in_app_or in Hin. destruct Hin as [Hin|Hin]; [tauto|].
      destruct Hin as [Hin|Hin]; [discriminate Hin | tauto].
  - eapply Forall_impl; [|exact Hparty]. cbn beta. tauto.
  - eapply Forall_impl; [|exact Hflags]. cbn beta. tauto.
  - cbn [current_location_label party state_dict]. repeat split; auto.
Qed.

End WithQaracter.

Lemma save_file_round_trip_witness :
  let s := Example.game (lit "hills") [lit "doug#Analyst#1"; lit "ada#Engineer#2"]
             [(lit "qp", lit "3"); (lit "door", lit "open")] [] in
  exists live',
    with_save_file (Example.game (lit "start") [] [(lit "old", lit "1")] [lit "load"])
      (to_save_file s)
    = (live', Return RetSelf)
    /\ current_location_label live' = current_location_label s
    /\ party live' = party s
    /\ state_dict live' = state_dict s
    /\ (forall k v, In (k, v) (state_dict live') <-> In (k, v) (state_dict s)).
Proof.
  intros s.
  apply (@save_file_round_trip Example.named
           (Example.game (lit "start") [] [(lit "old", lit "1")] [lit "load"]) s).
  - vm_compute. intuition discriminate.
  - repeat constructor; vm_compute; intuition discriminate.
  - repeat constructor; vm_compute; intuition discriminate.
  - repeat constructor; vm_compute; intuition discriminate.
Defined.

(** C2, as stated, fails for a flag whose value contains [:]: the state
    with the single flag [k] = [a:b] is saved as [;0;k:a:b], and the
    token is read back with [k] = [a]. *)
Lemma save_file_round_trip_loses_flag_value :
  let s := Example.game (lit "") [] [(lit "k", lit "a:b")] [] in
  to_save_file s = lit ";0;k:a:b"
  /\ with_save_file s (to_save_file s)
     = (Example.game (lit "") [] [(lit "k", lit "a")] [], Return RetSelf)
  /\ In (lit "k", lit "a:b") (state_dict s)
  /\ ~ In (lit "k", lit "a:b")
         (state_dict (fst (with_save_file s (to_save_file s)))).
Proof.
  intros s. split; [reflexivity|]. split; [reflexivity|]. split.
  - left. reflexivity.
  - vm_compute. intuition discriminate.
Qed.

End SaveFileFacts.

(** ** A refused token and the live state *)

Module FailedLoadFacts.
Import PyFacts GameState.

Section WithQaracter.
Context {Q : QaracterAPI}.

(** What a refused load leaves behind: the party and the flags of the
    live state are kept; the location label is kept only when the token
    has fewer than two segments, and is otherwise the first segment. *)
Lemma with_save_file_refused (self self' : GameState) (save_file : str) :
  with_save_file self save_file = (self', Return RetNone) ->
  party self' = party self
  /\ state_dict self' = state_dict self
  /\ current_input self' = current_input self
  /\ get_user_input self' = get_user_input self
  /\ ((len (split _SAVE_DELIMITER save_file) < 2)%Z /\ self' = self
      \/ (2 <= len (split _SAVE_DELIMITER save_file))%Z
         /\ Some (current_location_label self')
            = nth_error (split _SAVE_DELIMITER save_file) 0).
Proof.
  unfold with_save_file.
  destruct (Z.ltb_spec (len (split _SAVE_DELIMITER save_file)) 2) as [Hlt|Hge].
  - intros H. injection H as <-. repeat split; auto.
  - destruct (split _SAVE_DELIMITER save_file) as [|line0 lines]; [discriminate|].
    intros H.
    assert (Hself : self' = set_current_location_label self line0).
    { destruct (let* line1 := Py.getitem (line0 :: lines) 1 in int line1)
        as [num_party|e].
      - destruct (len (line0 :: lines) <? 2 + num_party)%Z.
        + injection H as <-. reflexivity.
        + destruct (load_party _ _ _); discriminate H.
      - destruct e; try discriminate H. injection H as <-. reflexivity. }
    subst self'. repeat split; auto.
Qed.

End WithQaracter.

(** C1: a token with a count segment that is not a number, and a token
    whose count exceeds the segments that follow, are both refused with
    [None], yet the location label of the live state has then been
    overwritten with the first segment of the token; only a token with
    fewer than two segments leaves the live state as it was. *)
Theorem with_save_file_refused_overwrites_label :
  let live := Example.game (lit "start") [lit "doug#Analyst#1"]
                [(lit "qp", lit "1")] [] in
  with_save_file live (lit "hills;x")
  = (set_current_location_label live (lit "hills"), Return RetNone)
  /\ with_save_file live (lit "hills;2;doug#Analyst#1")
     = (set_current_location_label live (lit "hills"), Return RetNone)
  /\ current_location_label (fst (with_save_file live (lit "hills;x")))
     <> current_location_label live
  /\ with_save_file live (lit "hills") = (live, Return RetNone).
Proof.
  intros live. repeat split; try reflexivity.
  vm_compute. discriminate.
Qed.

End FailedLoadFacts.

(** ** The quantopedia listing *)

Module QuantopediaFacts.
Import GameState MainLoop.

Section WithWorld.
Context {Q : QaracterAPI} {W : WorldAPI}.

Lemma quantopedia_lines_names (classes : list Npcs.NpcClass) (c : Npcs.NpcClass) :
  In c classes -> In (Line (Npcs.__name__ c)) (quantopedia_lines classes).
Proof.
  induction classes as [|d classes IH]; simpl; [tauto|].
  intros [->|H]; [left; reflexivity | right; right; right; auto].
Qed.

(** The listing does not depend on the flags: every subclass of [Npc] is
    printed with its entry. *)
Lemma print_quantopedia_lists_all (self : MainLoop.MainLoop) (c : Npcs.NpcClass) :
  In c Npcs.Npc__subclasses__ ->
  In (Line (Npcs.__name__ c)) (file (print_quantopedia self))
  /\ In (Line (indent (Npcs.quantopedia_entry c) (lit "  ")))
       (file (print_quantopedia self)).
Proof.
  intros H. unfold print_quantopedia, write. cbn [file].
  split; apply in_or_app; right; right.
  - apply quantopedia_lines_names. exact H.
  - revert H. generalize Npcs.Npc__subclasses__.
    induction l as [|d l IH]; simpl; [tauto|].
    intros [->|H]; [right; left; reflexivity | right; right; right; auto].
Qed.

End WithWorld.

(** C4: in a game with no flag set, [has_quantopedia] is false for the
    index of every [Npc] subclass, and the [quantopedia] command still
    prints the name and the entry of each of them. *)
Theorem quantopedia_lists_locked_entries :
  let self := @mkMainLoop Example.named Example.arena
                (mkWorld [(lit "start", mkLocation [])] (lit "start"))
                (Example.game (lit "start") [lit "doug"] [] [lit "quantopedia"])
                [] 0%nat in
  Forall (fun c => has_quantopedia (game_state self) (Npcs.quantopedia_index c)
                   = Return false) Npcs.Npc__subclasses__
  /\ exists self',
       loop_body self false = Continue self' false
       /\ Forall (fun c =>
                    In (Line (Npcs.__name__ c)) (file self')
                    /\ In (Line (indent (Npcs.quantopedia_entry c) (lit "  ")))
                         (file self'))
            Npcs.Npc__subclasses__.
Proof.
  intros self. split.
  - repeat constructor.
  - eexists. split; [reflexivity|].
    apply Forall_forall. intros c Hc.
    apply (@print_quantopedia_lists_all Example.named Example.arena _ c Hc).
Qed.

End QuantopediaFacts.

(** ** Encounters are consumed *)

Module EncounterFacts.
Import PyFacts GameState MainLoop.

Section WithWorld.
Context {Q : QaracterAPI} {W : WorldAPI}.

Lemma find_update (ls : list (str * Location Encounter)) (l l' : str)
  (loc : Location Encounter) :
  find (update ls l loc) l'
  = if str_eqb l l'
    then match find ls l with Some _ => Some loc | None => None end
    else find ls l'.
Proof.
  induction ls as [|[k old] ls IH]; simpl.
  - destruct (str_eqb l l'); reflexivity.
  - destruct (str_eqb k l) eqn:Ekl.
    + apply str_eqb_eq in Ekl. subst k. simpl.
      destruct (str_eqb l l'); reflexivity.
    + simpl. rewrite IH. destruct (str_eqb l l') eqn:Ell.
      * apply str_eqb_eq in Ell. subst l'. rewrite Ekl. reflexivity.
      * reflexivity.
Qed.

Lemma encounters_at_remove (w : World Encounter) (l l' : str) (e : Encounter) :
  encounters_at (remove_encounter w l e) l'
  = if str_eqb l l'
    then filter (fun x => negb (Encounter_eqb x e)) (encounters_at w l')
    else encounters_at w l'.
Proof.
  unfold remove_encounter, encounters_at.
  destruct (find (locations w) l) as [loc|] eqn:E; cbn [locations].
  - rewrite find_update, E.
    destruct (str_eqb l l') eqn:Ell; [|reflexivity].
    apply str_eqb_eq in Ell. subst l'. rewrite E. reflexivity.
  - destruct (str_eqb l l') eqn:Ell; [|reflexivity].
    apply str_eqb_eq in Ell. subst l'. rewrite E. reflexivity.
Qed.

Lemma current_location_remove (w : World Encounter) (l : str) (e : Encounter) :
  current_location (remove_encounter w l e) = current_location w.
Proof.
  unfold remove_encounter. destruct (find (locations w) l); reflexivity.
Qed.

Lemma removed_is_absent (w : World Encounter) (l : str) (e : Encounter) :
  ~ In e (encounters_at (remove_encounter w l e) l).
Proof.
  rewrite encounters_at_remove, str_eqb_refl. intros H.
  apply filter_In in H. destruct H as [_ H].
  assert (E : Encounter_eqb e e = true) by (apply Encounter_eqb_eq; reflexivity).
  rewrite E in H. discriminate H.
Qed.

Lemma no_new_refl (w : World Encounter) : no_new_encounters w w.
Proof. intros l x H. exact H. Qed.

Lemma no_new_trans (w1 w2 w3 : World Encounter) :
  no_new_encounters w1 w2 -> no_new_encounters w2 w3 -> no_new_encounters w1 w3.
Proof. intros H12 H23 l x H. apply H12, H23, H. Qed.

Lemma no_new_remove (w : World Encounter) (l : str) (e : Encounter) :
  no_new_encounters w (remove_encounter w l e).
Proof.
  intros l' x H. rewrite encounters_at_remove in H.
  destruct (str_eqb l l'); [|exact H].
  apply filter_In in H. tauto.
Qed.

Lemma no_new_same_locations (w w' : World Encounter) :
  locations w' = locations w -> no_new_encounters w w'.
Proof. intros E l x. unfold encounters_at. rewrite E. tauto. Qed.

Lemma fired_ext (encs : list Encounter) :
  forall s1 s2 : MainLoop.MainLoop,
    rng s1 = rng s2 -> game_state s1 = game_state s2 ->
    fired encs s1 = fired encs s2.
Proof.
  induction encs as [|e encs IH]; intros s1 s2 Hr Hg; [reflexivity|].
  cbn [fired]. rewrite Hr. destruct (will_trigger e (rng s2)) as [fires r].
  cbn [set_rng game_state rng]. rewrite Hg.
  destruct fires; [reflexivity|]. apply IH; reflexivity || assumption.
Qed.

Lemma fired_In (encs : list Encounter) :
  forall (self : MainLoop.MainLoop) (e : Encounter) (res : BattleResult),
    fired encs self = Some (e, res) -> In e encs.
Proof.
  induction encs as [|x encs IH]; intros self e res H; [discriminate H|].
  cbn [fired] in H. destruct (will_trigger x (rng self)) as [fires r].
  destruct fires.
  - destruct (battle_result _); [|discriminate H].
    injection H as -> _. left. reflexivity.
  - right. eapply IH. exact H.
Qed.

(** The encounter loop: it keeps the current location and adds no
    encounter; the encounter it fights to a result is gone from the
    current location afterwards, whatever the result, and a lost battle
    raises [UntimelyDeathException]. *)
Lemma encounter_loop_consumes (encs : list Encounter) :
  forall (self self' : MainLoop.MainLoop) (r : result (option BattleResult)),
    encounter_loop encs self = (self', r) ->
    current_location (world self') = current_location (world self)
    /\ no_new_encounters (world self) (world self')
    /\ match fired encs self with
       | Some (e, res) =>
           ~ In e (encounters_at (world self') (current_location (world self)))
           /\ r = match res with
                  | PLAYERS_DOWN => Raise UntimelyDeathException
                  | _ => Return (Some res)
                  end
       | None => world self' = world self
       end.
Proof.
  induction encs as [|x encs IH]; intros self self' r H.
  - injection H as <- <-. split; [reflexivity|]. split; [apply no_new_refl | reflexivity].
  - cbn [encounter_loop fired] in *.
    destruct (will_trigger x (rng self)) as [fires rg].
    destruct fires.
    + cbn [set_rng game_state rng world] in *.
      match type of H with
      | context [run_battle x ?g ?r0] =>
          replace (run_battle x g r0) with (run_battle x (game_state self) rg) in H
            by (destruct (InputHelpers.nonempty (Encounter_description x)); reflexivity)
      end.
      destruct (battle_result (run_battle x (game_state self) rg)) as [res|e] eqn:Eb.
      * assert (Hw : world self'
                     = remove_encounter (world self) (current_location (world self)) x
                  /\ r = match res with
                         | PLAYERS_DOWN => Raise UntimelyDeathException
                         | _ => Return (Some res)
                         end).
        { destruct (InputHelpers.nonempty (Encounter_description x));
            destruct res; cbn in H;
            try destruct (award_xp _ _) as [g out];
            injection H as <- <-; split; reflexivity. }
        destruct Hw as [Hw ->]. rewrite Hw.
        split; [apply current_location_remove|].
        split; [apply no_new_remove|].
        split; [apply removed_is_absent | reflexivity].
      * assert (Hw : world self' = world self).
        { destruct (InputHelpers.nonempty (Encounter_description x));
            injection H as <- _; reflexivity. }
        rewrite Hw. split; [reflexivity|]. split; [apply no_new_refl | reflexivity].
    + apply IH in H. exact H.
Qed.

Lemma arrive_consumes (self self' : MainLoop.MainLoop) (p : bool) (r : result unit) :
  arrive self p = (self', r) ->
  current_location (world self') = current_location (world self)
  /\ no_new_encounters (world self) (world self')
  /\ (p = true ->
      forall e res,
        fired (current_encounters (world self)) self = Some (e, res) ->
        ~ In e (encounters_at (world self') (current_location (world self)))
        /\ (res = PLAYERS_DOWN -> r = Raise UntimelyDeathException)).
Proof.
  unfold arrive. destruct p.
  - set (self0 := print self (Location_str (world self))).
    change (world self0) with (world self).
    assert (Hf : forall encs, fired encs self0 = fired encs self)
      by (intros encs; apply fired_ext; reflexivity).
    destruct (current_encounters (world self)) as [|x encs] eqn:Ec.
    + intros H. injection H as <- <-.
      split; [reflexivity|]. split; [apply no_new_refl|].
      intros _ e res Hfired. discriminate Hfired.
    + destruct (encounter_loop (x :: encs) self0) as [self1 r1] eqn:El.
      apply encounter_loop_consumes in El. rewrite Hf in El.
      change (world self0) with (world self) in El.
      destruct El as (Hloc & Hnew & Hfired).
      intros H.
      assert (Hw : world self' = world self1
                   /\ (forall e, r1 = Raise e -> r = Raise e)).
      { destruct r1 as [[res|]|e]; injection H as <- <-;
          (split; [reflexivity | congruence]). }
      destruct Hw as [Hw Hr]. rewrite Hw.
      split; [assumption|]. split; [assumption|].
      intros _ e res He. rewrite He in Hfired. destruct Hfired as [Habs Hres].
      split; [assumption|]. intros ->. apply Hr. exact Hres.
  - intros H. injection H as <- <-.
    split; [reflexivity|]. split; [apply no_new_refl|]. discriminate.
Qed.

Lemma no_new_goto (w w' : World Encounter) (label : str) :
  goto w label = Return w' -> no_new_encounters w w'.
Proof.
  unfold goto. destruct (find (locations w) label); [|discriminate].
  intros H. injection H as <-. apply no_new_same_locations. reflexivity.
Qed.

Lemma dispatch_no_new (self : MainLoop.MainLoop) (current_input : str)
  (input_cmd : option Command.Command) :
  no_new_encounters (world self) (world (turn_state (dispatch self current_input input_cmd))).
Proof.
  destruct input_cmd as [[]|]; cbn [dispatch]; try apply no_new_refl.
  unfold read. cbn [game_state print].
  destruct (InputHelpers.call _ _) as [f [save_file|e]]; [|apply no_new_refl].
  cbn [game_state set_game_state].
  destruct (with_save_file _ save_file) as [g [[]|e]]; try apply no_new_refl.
  cbn [world set_game_state print].
  destruct (goto (world self) (current_location_label g)) as [w|e] eqn:Eg;
    [|apply no_new_refl].
  cbn [turn_state set_world world]. eapply no_new_goto. exact Eg.
Qed.

Lemma respond_no_new (self : MainLoop.MainLoop) :
  actions_keep_encounters ->
  no_new_encounters (world self) (world (turn_state (respond self))).
Proof.
  intros Hact. unfold respond, read.
  destruct (InputHelpers.call _ _) as [f [current_input|e]]; [|apply no_new_refl].
  cbn [game_state set_game_state world].
  destruct (Direction_parse current_input) as [cmd|].
  - unfold move. destruct (exits (current_location (world self)) cmd) as [l|];
      apply no_new_same_locations; reflexivity.
  - destruct (get_action (world self) current_input) as [[s|a]|].
    + apply no_new_refl.
    + pose proof (Hact a
                    (set_current_input (set_get_user_input (game_state self) f)
                       current_input)
                    (world self)) as Ha.
      destruct (run_action a _ (world self)) as [[g w] msg].
      cbn [fst snd] in Ha.
      destruct (InputHelpers.nonempty msg); exact Ha.
    + destruct (Command.parse current_input) as [input_cmd|e].
      * match goal with
        | |- context [dispatch ?s _ _] =>
            exact (dispatch_no_new s current_input input_cmd)
        end.
      * destruct e; apply no_new_refl.
Qed.

Lemma loop_body_no_new (self : MainLoop.MainLoop) (p : bool) :
  actions_keep_encounters ->
  no_new_encounters (world self) (world (turn_state (loop_body self p))).
Proof.
  intros Hact. unfold loop_body.
  destruct (arrive self p) as [self1 r] eqn:Ea.
  apply arrive_consumes in Ea. destruct Ea as (_ & Hnew & _).
  destruct r as [u|e]; [|exact Hnew].
  eapply no_new_trans; [exact Hnew | apply respond_no_new; assumption].
Qed.

Lemma turns_no_new (n : nat) :
  forall (self : MainLoop.MainLoop) (p : bool),
    actions_keep_encounters ->
    no_new_encounters (world self) (world (turn_state (turns n self p))).
Proof.
  induction n as [|n IH]; intros self p Hact; [apply no_new_refl|].
  cbn [turns].
  pose proof (loop_body_no_new self p Hact) as Hb.
  destruct (loop_body self p) as [self1 p1|self1|self1 e]; try exact Hb.
  eapply no_new_trans; [exact Hb | apply IH; assumption].
Qed.

(** C5: when, on arrival at a location, an encounter [e] triggers and
    its battle ends with a result, [e] is gone from that location once
    the encounter loop is over, whether the players won or are down (in
    which case [UntimelyDeathException] is raised and ends the loop);
    [e] stays absent from the location for the rest of the session, and
    so is never the encounter that fires there again. *)
Theorem encounter_fires_at_most_once
  (self : MainLoop.MainLoop) (e : Encounter) (res : BattleResult) :
  actions_keep_encounters ->
  fired (current_encounters (world self)) self = Some (e, res) ->
  let here := current_location (world self) in
  In e (encounters_at (world self) here)
  /\ (forall self' r,
        arrive self true = (self', r) ->
        ~ In e (encounters_at (world self') here)
        /\ (res = PLAYERS_DOWN -> r = Raise UntimelyDeathException))
  /\ (forall n,
        let t := turns (S n) self true in
        ~ In e (encounters_at (world (turn_state t)) here)
        /\ (forall e' res',
              current_location (world (turn_state t)) = here ->
              fired (current_encounters (world (turn_state t))) (turn_state t)
              = Some (e', res') ->
              e' <> e))
  /\ (res = PLAYERS_DOWN ->
      forall n, exists final,
        loop (S n) self = Some (final, Return tt)
        /\ ~ In e (encounters_at (world final) here)).
Proof.
  intros Hact Hfired here.
  assert (Harrive : forall self' r,
             arrive self true = (self', r) ->
             ~ In e (encounters_at (world self') here)
             /\ (res = PLAYERS_DOWN -> r = Raise UntimelyDeathException)).
  { intros self' r Ha. apply arrive_consumes in Ha.
    destruct Ha as (_ & _ & Ha). exact (Ha eq_refl e res Hfired). }
  assert (Hbody : ~ In e (encounters_at (world (turn_state (loop_body self true))) here)).
  { unfold loop_body. destruct (arrive self true) as [self1 r] eqn:Ea.
    destruct (Harrive self1 r eq_refl) as [Habs _].
    destruct r as [u|ex]; [|exact Habs].
    intros Hin. apply Habs. exact (respond_no_new self1 Hact here e Hin). }
  assert (Hturns : forall n,
             ~ In e (encounters_at (world (turn_state (turns (S n) self true))) here)).
  { intros n. cbn [turns].
    destruct (loop_body self true) as [self1 p1|self1|self1 ex] eqn:Eb;
      cbn [turn_state] in Hbody; try exact Hbody.
    intros Hin. apply Hbody. exact (turns_no_new n self1 p1 Hact here e Hin). }
  split; [exact (fired_In _ _ _ _ Hfired)|].
  split; [exact Harrive|].
  split.
  - intros n t. split; [apply Hturns|].
    intros e' res' Hloc Hf ->.
    apply fired_In in Hf. unfold current_encounters in Hf. rewrite Hloc in Hf.
    exact (Hturns n Hf).
  - intros -> n. unfold loop. cbn [turns].
    unfold loop_body in *. destruct (arrive self true) as [self1 r] eqn:Ea.
    destruct (Harrive self1 r eq_refl) as [Habs Hr].
    rewrite (Hr eq_refl). exists (untimely_death self1).
    split; [reflexivity|].
    replace (world (untimely_death self1)) with (world self1); [exact Habs|].
    unfold untimely_death.
    assert (Hfold : forall (qs : list Qaracter) (s : MainLoop.MainLoop),
               world (fold_left
                        (fun s0 qar =>
                           print s0 (lit "     |       | " ++ center 16 (qar_name qar)
                                       ++ lit " |")) qs s)
               = world s).
    { induction qs as [|q qs IHq]; intros s; [reflexivity|].
      cbn [fold_left]. rewrite IHq. reflexivity. }
    cbn [print world]. rewrite Hfold. reflexivity.
Qed.

End WithWorld.

Lemma encounter_fires_at_most_once_witness :
  let self := @mkMainLoop Example.named Example.arena
                (mkWorld [(lit "cave", mkLocation [4%nat; 7%nat])] (lit "cave"))
                (Example.game (lit "cave") [lit "doug"] [] [lit "look"; lit "look"])
                [] 0%nat in
  In 4%nat (encounters_at (world self) (lit "cave"))
  /\ ~ In 4%nat
       (encounters_at (world (turn_state (turns 1 self true))) (lit "cave")).
Proof.
  intros self.
  destruct (@encounter_fires_at_most_once Example.named Example.arena
              self 4%nat PLAYERS_WON) as (Hin & _ & Hlater & _).
  - intros a g w l x H. exact H.
  - reflexivity.
  - split; [exact Hin|]. exact (proj1 (Hlater 0%nat)).
Defined.

End EncounterFacts.

(** * Further properties of the code *)

(** ** Dictionaries, continued *)

Module DictMore.
Import PyFacts DictFacts.

Lemma get_set_other (d : Dict.dict) (k k' v : str) :
  k' <> k -> Dict.get (Dict.set d k' v) k = Dict.get d k.
Proof.
  intros Hne. induction d as [|[k0 v0] d IH]; simpl.
  - destruct (str_eqb k' k) eqn:E; [apply str_eqb_eq in E; contradiction | reflexivity].
  - destruct (str_eqb k0 k') eqn:E0; simpl.
    + apply str_eqb_eq in E0. subst k0.
      destruct (str_eqb k' k) eqn:E; [apply str_eqb_eq in E; contradiction | reflexivity].
    + destruct (str_eqb k0 k); [reflexivity | exact IH].
Qed.

Lemma set_set (d : Dict.dict) (k a b : str) :
  Dict.set (Dict.set d k a) k b = Dict.set d k b.
Proof.
  induction d as [|[k0 v0] d IH]; simpl.
  - rewrite str_eqb_refl. reflexivity.
  - destruct (str_eqb k0 k) eqn:E; simpl; rewrite E; [reflexivity|].
    rewrite IH. reflexivity.
Qed.

Lemma get_In_keys (d : Dict.dict) (k : str) :
  Dict.get d k <> None <-> In k (map fst d).
Proof.
  induction d as [|[k0 v0] d IH]; simpl; [tauto|].
  destruct (str_eqb k0 k) eqn:E.
  - apply str_eqb_eq in E. split; [auto | discriminate].
  - rewrite IH. split; [auto|]. intros [H|H]; [|exact H].
    subst k0. rewrite str_eqb_refl in E. discriminate E.
Qed.

Lemma set_keys (d : Dict.dict) (k v : str) :
  map fst (Dict.set d k v)
  = if Dict.contains d k then map fst d else map fst d ++ [k].
Proof.
  unfold Dict.contains. induction d as [|[k0 v0] d IH]; simpl; [reflexivity|].
  destruct (str_eqb k0 k) eqn:E; simpl; [reflexivity|].
  rewrite IH. destruct (Dict.get d k); reflexivity.
Qed.

Lemma set_wf (d : Dict.dict) (k v : str) : Dict.wf d -> Dict.wf (Dict.set d k v).
Proof.
  unfold Dict.wf. intros Hwf. rewrite set_keys. unfold Dict.contains.
  destruct (Dict.get d k) eqn:E; [exact Hwf|].
  apply NoDup_app; [exact Hwf | repeat constructor; simpl; tauto |].
  intros x Hx [<-|[]]. apply get_In_keys in Hx. contradiction.
Qed.

End DictMore.

(** ** Quantopedia bits, continued *)

Module QuantopediaBits.
Import PyFacts DictFacts DictMore GameState GameStateFacts.

Section WithQaracter.
Context {Q : QaracterAPI}.

Lemma set_state_dict_same (self : GameState) :
  set_state_dict self (state_dict self) = self.
Proof. destruct self; reflexivity. Qed.

Lemma readable_value (self : GameState) :
  (forall v, Dict.get (state_dict self) _QUANTOPEDIA_KEY = Some v ->
             exists z, int_limited v = Return z) ->
  exists z : Z,
    match Dict.get (state_dict self) _QUANTOPEDIA_KEY with
    | Some v => int_limited v = Return z
    | None => z = 0%Z
    end.
Proof.
  intros Hr. destruct (Dict.get (state_dict self) _QUANTOPEDIA_KEY) as [v|].
  - exact (Hr v eq_refl).
  - exists 0%Z. reflexivity.
Qed.

(** Both methods act on one integer [z]: the value of the flag, or 0
    without flag; [d0] is the flags once a missing ["qp"] has been
    written as ["0"]. *)
Lemma quantopedia_bits (self : GameState) (z : Z) :
  match Dict.get (state_dict self) _QUANTOPEDIA_KEY with
  | Some v => int_limited v = Return z
  | None => z = 0%Z
  end ->
  exists d0 : Dict.dict,
    (Z.abs z < 10 ^ int_max_str_digits)%Z
    /\ (forall m, has_quantopedia self m = Return (negb (Z.land z m =? 0)%Z))
    /\ (forall m, has_quantopedia (set_state_dict self d0) m
                  = Return (negb (Z.land z m =? 0)%Z))
    /\ (forall n,
          set_quantopedia self n
          = match str_limited (Z.lor z n) with
            | Return s =>
                (set_state_dict self (Dict.set d0 _QUANTOPEDIA_KEY s), Return tt)
            | Raise e => (set_state_dict self d0, Raise e)
            end)
    /\ forall a b,
         Dict.set (Dict.set d0 _QUANTOPEDIA_KEY a) _QUANTOPEDIA_KEY b
         = Dict.set d0 _QUANTOPEDIA_KEY b.
Proof.
  intros Hz.
  destruct (Dict.get (state_dict self) _QUANTOPEDIA_KEY) as [v|] eqn:Hg.
  - exists (state_dict self).
    rewrite set_state_dict_same.
    split; [exact (int_limited_bound v z Hz)|].
    split; [intros m; exact (has_quantopedia_value self v z m Hg Hz)|].
    split; [intros m; exact (has_quantopedia_value self v z m Hg Hz)|].
    split; [intros n; exact (set_quantopedia_value self v z n Hg Hz)|].
    intros a b. apply set_set.
  - subst z. exists (Dict.set (state_dict self) _QUANTOPEDIA_KEY (lit "0")).
    split; [apply Z.pow_pos_nonneg; [reflexivity | discriminate]|].
    split; [intros m; rewrite (has_quantopedia_absent self m Hg); reflexivity|].
    split.
    { intros m. apply (has_quantopedia_value _ (lit "0") 0 m); [|reflexivity].
      apply get_set_same. }
    split; [intros n; exact (set_quantopedia_absent self n Hg)|].
    intros a b. apply set_set.
Qed.

Lemma lor_land_nonzero (z n m : Z) :
  negb (Z.land (Z.lor z n) m =? 0)%Z
  = negb (Z.land z m =? 0)%Z || negb (Z.land n m =? 0)%Z.
Proof.
  rewrite Z.land_lor_distr_l.
  destruct (Z.eqb_spec (Z.land z m) 0) as [Ez|Ez];
    destruct (Z.eqb_spec (Z.land n m) 0) as [En|En];
    destruct (Z.eqb_spec (Z.lor (Z.land z m) (Z.land n m)) 0) as [E|E];
    try reflexivity; exfalso.
  - apply E. rewrite Ez, En. reflexivity.
  - apply Z.lor_eq_0_iff in E. tauto.
  - apply Z.lor_eq_0_iff in E. tauto.
  - apply Z.lor_eq_0_iff in E. tauto.
Qed.

(** The answers of [has_quantopedia] after a [set_quantopedia(n)], by
    whether the or-ed value stays within the digit limit of [str]. *)
Lemma has_after_set (self : GameState) (z n : Z) :
  match Dict.get (state_dict self) _QUANTOPEDIA_KEY with
  | Some v => int_limited v = Return z
  | None => z = 0%Z
  end ->
  (Z.abs z < 10 ^ int_max_str_digits)%Z
    /\ (forall m, has_quantopedia self m = Return (negb (Z.land z m =? 0)%Z))
    /\ ((Z.abs (Z.lor z n) < 10 ^ int_max_str_digits)%Z ->
        snd (set_quantopedia self n) = Return tt
        /\ forall m,
             has_quantopedia (fst (set_quantopedia self n)) m
             = Return (negb (Z.land z m =? 0)%Z || negb (Z.land n m =? 0)%Z))
    /\ ((10 ^ int_max_str_digits <= Z.abs (Z.lor z n))%Z ->
        snd (set_quantopedia self n) = Raise ValueError
        /\ forall m,
             has_quantopedia (fst (set_quantopedia self n)) m
             = Return (negb (Z.land z m =? 0)%Z)).
Proof.
  intros Hv.
  destruct (quantopedia_bits self z Hv) as (d0 & Hz & Hhas & Hhas0 & Hset & _).
  split; [exact Hz|]. split; [exact Hhas|]. split.
  - intros Hb. rewrite Hset, (str_limited_within _ Hb). cbn [fst snd].
    split; [reflexivity|]. intros m.
    rewrite (has_quantopedia_value _ (str_of_int (Z.lor z n)) (Z.lor z n) m).
    + rewrite lor_land_nonzero. reflexivity.
    + apply get_set_same.
    + apply int_limited_str_of_int. exact Hb.
  - intros Hb. rewrite Hset, (str_limited_beyond _ Hb). cbn [fst snd].
    split; [reflexivity | exact Hhas0].
Qed.

Lemma set_quantopedia_returns_readable (self : GameState) (n : Z) :
  snd (set_quantopedia self n) = Return tt ->
  forall v, Dict.get (state_dict self) _QUANTOPEDIA_KEY = Some v ->
            exists z, int_limited v = Return z.
Proof.
  intros H v Hg. destruct (int_limited v) as [z|e] eqn:Hi; [exists z; reflexivity|].
  destruct (set_quantopedia_unreadable self v e n 0 Hg Hi) as [E _].
  rewrite E in H. discriminate H.
Qed.

(** A second call after a call that returned. *)
Lemma set_after_set (self : GameState) (a b : Z) :
  snd (set_quantopedia self a) = Return tt ->
  snd (set_quantopedia self (Z.lor a b)) = Return tt ->
  set_quantopedia (fst (set_quantopedia self a)) b
  = set_quantopedia self (Z.lor a b).
Proof.
  intros Ha Hab.
  destruct (readable_value self (set_quantopedia_returns_readable self a Ha))
    as [z Hv].
  destruct (quantopedia_bits self z Hv) as (d0 & _ & _ & _ & Hset & Hss).
  rewrite (Hset a) in Ha |- *. rewrite (Hset (Z.lor a b)) in Hab |- *.
  destruct (str_limited_cases (Z.lor z a)) as [[Hb Ea]|[_ Ea]];
    rewrite Ea in Ha |- *; [|discriminate Ha].
  cbn [fst].
  rewrite (set_quantopedia_value _ (str_of_int (Z.lor z a)) (Z.lor z a) b);
    [| apply get_set_same | apply int_limited_str_of_int; exact Hb].
  rewrite <- Z.lor_assoc.
  destruct (str_limited (Z.lor z (Z.lor a b))) as [s|e]; [|discriminate Hab].
  cbn [state_dict set_state_dict]. rewrite Hss. reflexivity.
Qed.

(** X1: let [z] be the number that [int] reads from the ["qp"] flag, or
    0 without flag.  The answers of [has_quantopedia] are the bits of
    [z].  When [z] or-ed with [n] has at most 4300 digits,
    [set_quantopedia(n)] returns and [has_quantopedia(m)] then answers
    what it answered before, or true when [n] and [m] share a bit;
    otherwise [set_quantopedia(n)] raises [ValueError] and
    [has_quantopedia(m)] answers what it answered before: a bit is
    unlocked only by a call that names it. *)
Theorem has_quantopedia_after_set (self : GameState) (z n : Z) :
  match Dict.get (state_dict self) _QUANTOPEDIA_KEY with
  | Some v => int_limited v = Return z
  | None => z = 0%Z
  end ->
  (forall m, has_quantopedia self m = Return (negb (Z.land z m =? 0)%Z))
    /\ ((Z.abs (Z.lor z n) < 10 ^ int_max_str_digits)%Z ->
        snd (set_quantopedia self n) = Return tt
        /\ forall m,
             has_quantopedia (fst (set_quantopedia self n)) m
             = Return (negb (Z.land z m =? 0)%Z || negb (Z.land n m =? 0)%Z))
    /\ ((10 ^ int_max_str_digits <= Z.abs (Z.lor z n))%Z ->
        snd (set_quantopedia self n) = Raise ValueError
        /\ forall m,
             has_quantopedia (fst (set_quantopedia self n)) m
             = Return (negb (Z.land z m =? 0)%Z)).
Proof.
  intros Hv. destruct (has_after_set self z n Hv) as (_ & H). exact H.
Qed.

(** X2: when [set_quantopedia(n)] has returned, a following
    [set_quantopedia(m)] amounts to one call with the bitwise or of the
    two arguments, provided that call returns; a repeated call changes
    nothing; and the order of two calls that both return does not
    matter. *)
Theorem set_quantopedia_twice (self : GameState) (n m : Z) :
  snd (set_quantopedia self n) = Return tt ->
  (snd (set_quantopedia self (Z.lor n m)) = Return tt ->
   set_quantopedia (fst (set_quantopedia self n)) m
   = set_quantopedia self (Z.lor n m))
  /\ set_quantopedia (fst (set_quantopedia self n)) n = set_quantopedia self n
  /\ (snd (set_quantopedia self m) = Return tt ->
      snd (set_quantopedia self (Z.lor n m)) = Return tt ->
      set_quantopedia (fst (set_quantopedia self n)) m
      = set_quantopedia (fst (set_quantopedia self m)) n).
Proof.
  intros Hn. split; [|split].
  - intros Hnm. apply set_after_set; assumption.
  - rewrite set_after_set; rewrite ?Z.lor_diag; auto.
  - intros Hm Hnm. rewrite (set_after_set self n m Hn Hnm).
    rewrite Z.lor_comm in Hnm |- *.
    rewrite (set_after_set self m n Hm Hnm). reflexivity.
Qed.

(** X3: [set_quantopedia] touches the ["qp"] flag only: party, location
    label and input position are kept, every other flag keeps its value,
    and the keys stay distinct. *)
Theorem set_quantopedia_frame (self : GameState) (n : Z) :
  let self' := fst (set_quantopedia self n) in
  party self' = party self
  /\ current_location_label self' = current_location_label self
  /\ current_input self' = current_input self
  /\ get_user_input self' = get_user_input self
  /\ (forall k, k <> _QUANTOPEDIA_KEY ->
                Dict.get (state_dict self') k = Dict.get (state_dict self) k)
  /\ (Dict.wf (state_dict self) -> Dict.wf (state_dict self')).
Proof.
  unfold set_quantopedia.
  destruct (negb (Dict.contains (state_dict self) _QUANTOPEDIA_KEY));
    repeat match goal with
           | |- context [match ?r with Return _ => _ | Raise _ => _ end] => destruct r
           end;
    cbn [fst party current_location_label current_input get_user_input
           state_dict set_state_dict];
    repeat split; try reflexivity;
    try (intros k Hk; rewrite ?get_set_other by congruence; reflexivity);
    try (intros Hwf; repeat apply set_wf; exact Hwf).
Qed.

(** X4: when the ["qp"] flag holds something that [int] does not read,
    be it no integer literal or one of more than 4300 digits,
    [set_quantopedia] and [has_quantopedia] raise [ValueError], and
    [set_quantopedia] leaves the state as it was. *)
Theorem quantopedia_unreadable_flag (self : GameState) (v : str) (e : exn) (n m : Z) :
  Dict.get (state_dict self) _QUANTOPEDIA_KEY = Some v ->
  int_limited v = Raise e ->
  set_quantopedia self n = (self, Raise ValueError)
  /\ has_quantopedia self m = Raise ValueError.
Proof. exact (set_quantopedia_unreadable self v e n m). Qed.


End WithQaracter.

Lemma has_quantopedia_after_set_witness :
  let self := Example.game (lit "hills") [] [(lit "qp", lit "4")] [] in
  has_quantopedia self 4 = Return true
  /\ has_quantopedia self 2 = Return false
  /\ snd (set_quantopedia self 2) = Return tt
  /\ has_quantopedia (fst (set_quantopedia self 2)) 2 = Return true
  /\ has_quantopedia (fst (set_quantopedia self 2)) 1 = Return false.
Proof.
  intros self.
  destruct (@has_quantopedia_after_set Example.named self 4 2 eq_refl)
    as (Hhas & Hwithin & _).
  destruct Hwithin as [Hret Hafter].
  { change (Z.abs (Z.lor 4 2)) with (10 ^ 0 * 6)%Z.
    apply Z.lt_le_trans with (10 ^ 1)%Z; [reflexivity|].
    apply Z.pow_le_mono_r; [reflexivity | discriminate]. }
  split; [exact (Hhas 4%Z)|]. split; [exact (Hhas 2%Z)|].
  split; [exact Hret|]. split; [exact (Hafter 2%Z) | exact (Hafter 1%Z)].
Defined.

Lemma set_quantopedia_twice_witness :
  let self := Example.game (lit "hills") [] [] [] in
  set_quantopedia (fst (set_quantopedia self 1)) 2 = set_quantopedia self 3
  /\ set_quantopedia (fst (set_quantopedia self 1)) 1 = set_quantopedia self 1.
Proof.
  intros self.
  assert (Hsmall : forall k : Z, (Z.abs k < 10 ^ 1)%Z ->
                                 (Z.abs k < 10 ^ int_max_str_digits)%Z).
  { intros k Hk. apply Z.lt_le_trans with (10 ^ 1)%Z; [exact Hk|].
    apply Z.pow_le_mono_r; [reflexivity | discriminate]. }
  assert (Hret : forall k : Z, (Z.abs k < 10 ^ 1)%Z ->
                               snd (set_quantopedia self k) = Return tt).
  { intros k Hk.
    rewrite (GameStateFacts.set_quantopedia_absent self k eq_refl),
      (str_limited_within k (Hsmall k Hk)).
    reflexivity. }
  destruct (@set_quantopedia_twice Example.named self 1 2 (Hret 1%Z eq_refl))
    as (Hor & Hsame & _).
  split; [exact (Hor (Hret 3%Z eq_refl)) | exact Hsame].
Defined.

Lemma quantopedia_unreadable_flag_witness :
  set_quantopedia (Example.game (lit "hills") [] [(lit "qp", lit "1.5")] []) 2
  = (Example.game (lit "hills") [] [(lit "qp", lit "1.5")] [], Raise ValueError)
  /\ has_quantopedia (Example.game (lit "hills") [] [(lit "qp", lit "1.5")] []) 1
     = Raise ValueError.
Proof.
  apply (@quantopedia_unreadable_flag Example.named
           (Example.game (lit "hills") [] [(lit "qp", lit "1.5")] [])
           (lit "1.5") ValueError 2 1); reflexivity.
Defined.


End QuantopediaBits.

(** ** Loading and saving, continued *)

Module SaveFileMore.
Import PyFacts DictFacts DictMore GameState SaveFileFacts.

Lemma split_sep_app (sep : ascii) (a b : str) :
  split sep (a ++ sep :: b) = split sep a ++ split sep b.
Proof.
  induction a as [|c a IH]; simpl.
  - rewrite Ascii.eqb_refl. reflexivity.
  - destruct (Ascii.eqb c sep); [rewrite IH; reflexivity|].
    rewrite IH. destruct (split sep a) as [|h t] eqn:E; [|reflexivity].
    destruct a as [|d a]; simpl in E; [discriminate E|].
    destruct (Ascii.eqb d sep); [discriminate E|].
    destruct (split sep a); discriminate E.
Qed.

Lemma split_length_pos (sep : ascii) (s : str) : (1 <= List.length (split sep s))%nat.
Proof.
  destruct s as [|c s]; simpl; [lia|].
  destruct (Ascii.eqb c sep); simpl; [lia|].
  destruct (split sep s); simpl; lia.
Qed.

Lemma split_join_length (sep : ascii) (segs : list str) :
  segs <> [] ->
  (List.length segs <= List.length (split sep (join [sep] segs)))%nat.
Proof.
  induction segs as [|x segs IH]; intros Hne; [congruence|].
  destruct segs as [|y segs].
  - simpl. apply split_length_pos.
  - change (join [sep] (x :: y :: segs)) with (x ++ sep :: join [sep] (y :: segs)).
    rewrite split_sep_app, length_app.
    pose proof (split_length_pos sep x). specialize (IH ltac:(discriminate)).
    simpl List.length in *. lia.
Qed.

Lemma getitem_nth {A} (l : list A) (i : Z) (d : A) :
  (0 <= i < len l)%Z -> Py.getitem l i = Return (nth (Z.to_nat i) l d).
Proof.
  unfold Py.getitem, len. intros H.
  destruct (Z.ltb_spec i 0) as [Hi|_]; [lia|].
  destruct (Z.ltb_spec i 0) as [Hi|_]; [lia|].
  destruct (nth_error l (Z.to_nat i)) as [x|] eqn:E.
  - f_equal. symmetry. apply nth_error_nth. exact E.
  - apply nth_error_None in E. lia.
Qed.

Lemma getitem_Return {A} (l : list A) (i : Z) (x d : A) :
  (0 <= i)%Z -> Py.getitem l i = Return x -> nth (Z.to_nat i) l d = x.
Proof.
  unfold Py.getitem. intros Hi.
  destruct (Z.ltb_spec i 0) as [H|_]; [lia|].
  destruct (Z.ltb_spec i 0) as [H|_]; [lia|].
  destruct (nth_error l (Z.to_nat i)) as [y|] eqn:E; [|discriminate].
  intros H. injection H as <-. apply nth_error_nth. exact E.
Qed.

Section WithQaracter.
Context {Q : QaracterAPI}.

(** [with_save_file], by the segments of the token. *)
Lemma with_save_file_cases (self : GameState) (save_file : str) :
  let lines := split _SAVE_DELIMITER save_file in
  with_save_file self save_file
  = if (len lines <? 2)%Z then (self, Return RetNone)
    else
      let self1 := set_current_location_label self (nth 0 lines []) in
      match int (nth 1 lines []) with
      | Raise _ => (self1, Return RetNone)
      | Return num_party =>
          if (len lines <? 2 + num_party)%Z then (self1, Return RetNone)
          else match load_party lines (range 2 (2 + num_party)) [] with
               | Raise e => (self1, Raise e)
               | Return party =>
                   (set_party
                      (set_state_dict self1
                         (load_state_dict (slice_from lines (2 + num_party)) []))
                      party,
                    Return RetSelf)
               end
      end.
Proof.
  intros lines. unfold with_save_file. fold lines.
  destruct (Z.ltb_spec (len lines) 2) as [Hlt|Hge]; [reflexivity|].
  destruct lines as [|line0 [|line1 rest]] eqn:El;
    [unfold len in Hge; simpl in Hge; lia | unfold len in Hge; simpl in Hge; lia |].
  change (Py.getitem (line0 :: line1 :: rest) 1) with (Return line1).
  cbn [bind nth].
  destruct (int line1) as [n|e] eqn:Ei; [reflexivity|].
  apply InputHelpersFacts.int_raises_ValueError in Ei. subst e. reflexivity.
Qed.

Lemma with_save_file_input (self : GameState) (save_file : str) :
  current_input (fst (with_save_file self save_file)) = current_input self
  /\ get_user_input (fst (with_save_file self save_file)) = get_user_input self.
Proof.
  rewrite with_save_file_cases. cbv zeta.
  destruct (len _ <? 2)%Z; [split; reflexivity|].
  destruct (int _) as [n|e]; [|split; reflexivity].
  destruct (len _ <? 2 + n)%Z; [split; reflexivity|].
  destruct (load_party _ _ _); split; reflexivity.
Qed.

(** X6: whatever the outcome of a load (refused, done, or an exception of
    the member decoder), the live state keeps its input source and its
    last input. *)
Theorem with_save_file_keeps_input (self : GameState) (save_file : str) :
  current_input (fst (with_save_file self save_file)) = current_input self
  /\ get_user_input (fst (with_save_file self save_file)) = get_user_input self.
Proof. exact (with_save_file_input self save_file). Qed.


Lemma load_party_sound (lines : list str) (idxs : list Z) :
  forall acc ps : list Qaracter,
    load_party lines idxs acc = Return ps ->
    exists qs,
      ps = acc ++ qs
      /\ List.length qs = List.length idxs
      /\ forall k q,
           nth_error qs k = Some q ->
           exists i seg,
             nth_error idxs k = Some i
             /\ Py.getitem lines i = Return seg
             /\ Qaracter_from_save_file seg = Return q.
Proof.
  induction idxs as [|i idxs IH]; intros acc ps H; cbn [load_party] in H.
  - injection H as <-. exists []. rewrite app_nil_r.
    split; [reflexivity|]. split; [reflexivity|].
    intros k q Hk. destruct k; discriminate Hk.
  - destruct (Py.getitem lines i) as [seg|e] eqn:Eg; [|discriminate H].
    cbn [bind] in H.
    destruct (Qaracter_from_save_file seg) as [q0|e] eqn:Eq; [|discriminate H].
    cbn [bind] in H. apply IH in H. destruct H as (qs & -> & Hlen & Hnth).
    exists (q0 :: qs). rewrite <- app_assoc.
    split; [reflexivity|]. split; [simpl; lia|].
    intros [|k] q Hk.
    + injection Hk as <-. exists i, seg. repeat split; assumption.
    + apply Hnth in Hk. exact Hk.
Qed.

Lemma range_nth_error (lo hi : Z) (k : nat) (i : Z) :
  nth_error (range lo hi) k = Some i -> i = (lo + Z.of_nat k)%Z.
Proof.
  unfold range. rewrite nth_error_map.
  destruct (nth_error (seq 0 (Z.to_nat (hi - lo))) k) as [j|] eqn:E; [|discriminate].
  assert (Hk : (k < List.length (seq 0 (Z.to_nat (hi - lo))))%nat).
  { apply nth_error_Some. congruence. }
  apply nth_error_nth with (d := 0%nat) in E.
  rewrite length_seq in Hk. rewrite seq_nth in E by assumption.
  simpl in E. subst j. intros H. injection H as <-. reflexivity.
Qed.

Lemma range_length (lo hi : Z) : List.length (range lo hi) = Z.to_nat (hi - lo).
Proof. unfold range. rewrite length_map, length_seq. reflexivity. Qed.

Lemma range_nonneg (lo hi : Z) : (0 <= lo)%Z -> Forall (fun i => (0 <= i)%Z) (range lo hi).
Proof.
  intros Hlo. unfold range. apply Forall_map, Forall_forall. intros k _. lia.
Qed.

(** X8: after a load that returned [self], the location label is the
    first segment of the token, the party has as many members as the
    count segment says (none for a negative count), member [k] is what
    [Qaracter.from_save_file] reads from segment [2 + k], and the flags
    are read from the segments after the members. *)
Theorem with_save_file_loaded (self self' : GameState) (save_file : str) :
  with_save_file self save_file = (self', Return RetSelf) ->
  let lines := split _SAVE_DELIMITER save_file in
  exists n,
    int (nth 1 lines []) = Return n
    /\ (2 <= len lines)%Z /\ (2 + n <= len lines)%Z
    /\ current_location_label self' = nth 0 lines []
    /\ List.length (party self') = Z.to_nat n
    /\ (forall k q,
          nth_error (party self') k = Some q ->
          Qaracter_from_save_file (nth (2 + k) lines []) = Return q)
    /\ state_dict self' = load_state_dict (slice_from lines (2 + n)) [].
Proof.
  intros H lines. rewrite with_save_file_cases in H. fold lines in H. cbv zeta in H.
  destruct (Z.ltb_spec (len lines) 2) as [Hlt|Hge]; [discriminate H|].
  destruct (int (nth 1 lines [])) as [n|e] eqn:Ei; [|discriminate H].
  destruct (Z.ltb_spec (len lines) (2 + n)) as [Hn|Hn]; [discriminate H|].
  destruct (load_party lines (range 2 (2 + n)) []) as [ps|e] eqn:El; [|discriminate H].
  injection H as <-. exists n.
  apply load_party_sound in El. destruct El as (qs & -> & Hlen & Hnth).
  cbn [app current_location_label party state_dict set_party set_state_dict
         set_current_location_label].
  repeat split; try assumption; try reflexivity.
  - rewrite Hlen, range_length. f_equal. lia.
  - intros k q Hk. destruct (Hnth k q Hk) as (i & seg & Hi & Hg & Hq).
    apply range_nth_error in Hi. subst i.
    apply (getitem_Return lines _ seg []) in Hg; [|lia].
    replace (Z.to_nat (2 + Z.of_nat k)) with (2 + k)%nat in Hg by lia.
    rewrite Hg. exact Hq.
Qed.

Lemma getitem_app {A} (l extra : list A) (i : Z) (x : A) :
  (0 <= i)%Z -> Py.getitem l i = Return x -> Py.getitem (l ++ extra) i = Return x.
Proof.
  unfold Py.getitem. intros Hi.
  destruct (Z.ltb_spec i 0) as [H|_]; [lia|].
  destruct (Z.ltb_spec i 0) as [H|_]; [lia|].
  destruct (nth_error l (Z.to_nat i)) as [y|] eqn:E; [|discriminate].
  intros H. rewrite nth_error_app1 by (apply nth_error_Some; congruence).
  rewrite E. exact H.
Qed.

Lemma load_party_app (lines extra : list str) (idxs : list Z) :
  forall acc ps : list Qaracter,
    Forall (fun i => (0 <= i)%Z) idxs ->
    load_party lines idxs acc = Return ps ->
    load_party (lines ++ extra) idxs acc = Return ps.
Proof.
  induction idxs as [|i idxs IH]; intros acc ps Hpos H; [exact H|].
  inversion Hpos as [|? ? Hi Hrest]; subst. cbn [load_party] in *.
  destruct (Py.getitem lines i) as [seg|e] eqn:Eg; [|discriminate H].
  rewrite (getitem_app lines extra i seg Hi Eg). cbn [bind] in *.
  destruct (Qaracter_from_save_file seg); [|discriminate H].
  cbn [bind] in *. apply IH; assumption.
Qed.

Lemma load_state_dict_app (l1 l2 : list str) :
  forall acc, load_state_dict (l1 ++ l2) acc = load_state_dict l2 (load_state_dict l1 acc).
Proof.
  induction l1 as [|line l1 IH]; intros acc; [reflexivity|].
  cbn [app load_state_dict]. destruct (split ":"%char line) as [|k [|v rest]]; apply IH.
Qed.

(** X9: a further segment at the end of a token that loads, with a count
    that is not negative, changes nothing when it holds no [:]; so a
    trailing [;] is harmless. *)
Theorem with_save_file_ignores_trailing_segment
  (self self' : GameState) (save_file seg : str) (n : Z) :
  with_save_file self save_file = (self', Return RetSelf) ->
  int (nth 1 (split _SAVE_DELIMITER save_file) []) = Return n -> (0 <= n)%Z ->
  ~ In _SAVE_DELIMITER seg -> ~ In _DICT_DELIMITER seg ->
  with_save_file self (save_file ++ _SAVE_DELIMITER :: seg) = (self', Return RetSelf).
Proof.
  intros H Hi Hn Hsep Hcolon.
  rewrite with_save_file_cases in *. cbv zeta in *.
  rewrite split_sep_app, (split_free _ seg Hsep).
  set (lines := split _SAVE_DELIMITER save_file) in *.
  destruct (Z.ltb_spec (len lines) 2) as [Hlt|Hge]; [discriminate H|].
  assert (Hlen : len (lines ++ [seg]) = (len lines + 1)%Z).
  { unfold len. rewrite length_app. simpl. lia. }
  destruct (Z.ltb_spec (len (lines ++ [seg])) 2) as [Hlt'|_]; [lia|].
  assert (Hnth : forall k, (k < 2)%nat -> nth k (lines ++ [seg]) [] = nth k lines []).
  { intros k Hk. apply app_nth1. unfold len in Hge. lia. }
  rewrite !Hnth by lia. rewrite Hi in *.
  destruct (Z.ltb_spec (len lines) (2 + n)) as [Hlt'|Hge']; [discriminate H|].
  destruct (Z.ltb_spec (len (lines ++ [seg])) (2 + n)) as [Hlt'|_]; [lia|].
  destruct (load_party lines (range 2 (2 + n)) []) as [ps|e] eqn:El; [|discriminate H].
  rewrite (load_party_app lines [seg] _ [] ps (range_nonneg 2 _ ltac:(lia)) El).
  rewrite <- H. do 3 f_equal.
  unfold slice_from.
  destruct (Z.ltb_spec (2 + n) 0) as [Hneg|_]; [lia|].
  rewrite skipn_app.
  replace (Z.to_nat (2 + n) - List.length lines)%nat with 0%nat
    by (unfold len in Hge'; lia).
  cbn [skipn]. rewrite load_state_dict_app. cbn [load_state_dict].
  change _DICT_DELIMITER with ":"%char in Hcolon.
  rewrite (split_free ":"%char seg Hcolon). reflexivity.
Qed.

(** X10: among the flag segments of a token, a segment without [:] is
    passed over, a segment [k:v:...] gives [k] the value [v], and a later
    segment for a key replaces what an earlier one gave; the keys read
    stay distinct. *)
Theorem flag_segments_last_wins (lines : list str) (seg k : str) (acc : Dict.dict) :
  Dict.get (load_state_dict (lines ++ [seg]) acc) k
  = match split ":"%char seg with
    | k' :: v :: _ =>
        if str_eqb k' k then Some v else Dict.get (load_state_dict lines acc) k
    | _ => Dict.get (load_state_dict lines acc) k
    end
  /\ (Dict.wf acc -> Dict.wf (load_state_dict lines acc)).
Proof.
  split.
  - rewrite load_state_dict_app. cbn [load_state_dict].
    destruct (split ":"%char seg) as [|k' [|v rest]]; try reflexivity.
    destruct (str_eqb k' k) eqn:E.
    + apply str_eqb_eq in E. subst k'. apply get_set_same.
    + apply get_set_other. intros ->. rewrite str_eqb_refl in E. discriminate E.
  - revert acc. induction lines as [|line lines IH]; intros acc Hwf; [exact Hwf|].
    cbn [load_state_dict]. destruct (split ":"%char line) as [|k' [|v rest]];
      apply IH; try exact Hwf. apply set_wf. exact Hwf.
Qed.

(** X11: [GameState.from_save_file] applied to the token of a state whose
    fields are free of the delimiters builds a fresh state with that
    state's location label, party and flags, an empty last input and the
    input source asked for; saving it gives the same token again. *)
Theorem from_save_file_of_saved
  (s : GameState) (user_input : option (list str)) (stdin : list str) :
  ~ In _SAVE_DELIMITER (current_location_label s) ->
  Forall (fun p => ~ In _SAVE_DELIMITER (Qaracter_to_save_file p)
                   /\ Qaracter_from_save_file (Qaracter_to_save_file p) = Return p)
    (party s) ->
  Forall (fun kv => (~ In _SAVE_DELIMITER (fst kv) /\ ~ In _DICT_DELIMITER (fst kv))
                    /\ (~ In _SAVE_DELIMITER (snd kv) /\ ~ In _DICT_DELIMITER (snd kv)))
    (state_dict s) ->
  Dict.wf (state_dict s) ->
  from_save_file (to_save_file s) user_input stdin
  = (init (party s) (current_location_label s) (Some (state_dict s)) user_input stdin,
     Return RetSelf)
  /\ to_save_file (fst (from_save_file (to_save_file s) user_input stdin))
     = to_save_file s.
Proof.
  intros Hlabel Hparty Hflags Hwf.
  assert (E : from_save_file (to_save_file s) user_input stdin
              = (init (party s) (current_location_label s) (Some (state_dict s))
                   user_input stdin, Return RetSelf)).
  { unfold from_save_file. rewrite with_save_file_segments; try assumption.
    - reflexivity.
    - unfold segments. constructor; [assumption|].
      constructor; [apply str_of_int_free; [reflexivity | discriminate]|].
      apply Forall_app. split; apply Forall_map.
      + eapply Forall_impl; [|exact Hparty]. cbn beta. tauto.
      + eapply Forall_impl; [|exact Hflags]. intros [k v]. unfold flag_segment.
        cbn [fst snd]. intros [[Hk _] [Hv _]] Hin.
        apply in_app_or in Hin. destruct Hin as [Hin|Hin]; [tauto|].
        destruct Hin as [Hin|Hin]; [discriminate Hin | tauto].
    - eapply Forall_impl; [|exact Hparty]. cbn beta. tauto.
    - eapply Forall_impl; [|exact Hflags]. cbn beta. tauto. }
  split; [exact E|]. rewrite E. reflexivity.
Qed.

(** X12: the token of a state never has fewer segments than two plus its
    members plus its flags, whatever its fields hold; when the location
    label holds no [;], loading the token is never refused with [None]. *)
Theorem saved_token_is_not_refused (s : GameState) :
  (2 + len (party s) + len (state_dict s)
   <= len (split _SAVE_DELIMITER (to_save_file s)))%Z
  /\ (~ In _SAVE_DELIMITER (current_location_label s) ->
      forall live : GameState,
        snd (with_save_file live (to_save_file s)) <> Return RetNone).
Proof.
  assert (Hcount : (2 + len (party s) + len (state_dict s)
                    <= len (split _SAVE_DELIMITER (to_save_file s)))%Z).
  { rewrite to_save_file_join.
    pose proof (split_join_length _SAVE_DELIMITER (segments s) ltac:(discriminate)) as H.
    assert (Hsegs : List.length (segments s)
                    = (2 + List.length (party s) + List.length (state_dict s))%nat).
    { unfold segments. cbn [List.length]. rewrite length_app, !length_map. lia. }
    rewrite Hsegs in H. unfold len. lia. }
  split; [exact Hcount|]. intros Hlabel live.
  rewrite with_save_file_cases. cbv zeta.
  set (lines := split _SAVE_DELIMITER (to_save_file s)) in *.
  destruct (Z.ltb_spec (len lines) 2) as [Hlt|_]; [unfold len in *; lia|].
  assert (Hsecond : nth 1 lines [] = str_of_int (len (party s))).
  { unfold lines. rewrite to_save_file_join. unfold segments.
    set (rest := map Qaracter_to_save_file (party s) ++ map flag_segment (state_dict s)).
    change (join [_SAVE_DELIMITER]
              (current_location_label s :: str_of_int (len (party s)) :: rest))
      with (current_location_label s ++ _SAVE_DELIMITER
              :: join [_SAVE_DELIMITER] (str_of_int (len (party s)) :: rest)).
    rewrite (split_app _ _ _ Hlabel). cbn [nth].
    assert (Hfree : ~ In _SAVE_DELIMITER (str_of_int (len (party s))))
      by (apply str_of_int_free; [reflexivity | discriminate]).
    destruct rest as [|r rest].
    - simpl. rewrite (split_free _ _ Hfree). reflexivity.
    - change (join [_SAVE_DELIMITER] (str_of_int (len (party s)) :: r :: rest))
        with (str_of_int (len (party s)) ++ _SAVE_DELIMITER
                :: join [_SAVE_DELIMITER] (r :: rest)).
      rewrite (split_app _ _ _ Hfree). reflexivity. }
  rewrite Hsecond, int_str_of_int.
  destruct (Z.ltb_spec (len lines) (2 + len (party s))) as [Hlt|_];
    [unfold len in *; lia|].
  destruct (load_party _ _ _); discriminate.
Qed.

End WithQaracter.

Lemma with_save_file_loaded_witness :
  exists n,
    int (nth 1 (split _SAVE_DELIMITER (lit "a:b;-2")) []) = Return n
    /\ List.length
         (party (fst (with_save_file (Example.game (lit "start") [lit "doug"] [] [])
                        (lit "a:b;-2"))))
       = Z.to_nat n.
Proof.
  destruct (@with_save_file_loaded Example.named
              (Example.game (lit "start") [lit "doug"] [] [])
              (Example.game (lit "a:b") [] [(lit "a", lit "b")] [])
              (lit "a:b;-2") eq_refl) as (n & Hn & _ & _ & _ & Hlen & _).
  exists n. split; [exact Hn | exact Hlen].
Defined.

Lemma with_save_file_ignores_trailing_segment_witness :
  with_save_file (Example.game (lit "start") [] [] [])
    (lit "hills;1;doug#Analyst#1;qp:3;")
  = (Example.game (lit "hills") [lit "doug#Analyst#1"] [(lit "qp", lit "3")] [],
     Return RetSelf).
Proof.
  apply (@with_save_file_ignores_trailing_segment Example.named
           (Example.game (lit "start") [] [] [])
           (Example.game (lit "hills") [lit "doug#Analyst#1"] [(lit "qp", lit "3")] [])
           (lit "hills;1;doug#Analyst#1;qp:3") (lit "") 1);
    first [reflexivity | lia | (simpl; tauto)].
Defined.

Lemma from_save_file_of_saved_witness :
  from_save_file
    (to_save_file (Example.game (lit "hills") [lit "doug#Analyst#1"]
                     [(lit "qp", lit "3")] [lit "look"]))
    (Some [lit "Quit"]) []
  = (Example.game (lit "hills") [lit "doug#Analyst#1"] [(lit "qp", lit "3")]
       [lit "Quit"],
     Return RetSelf).
Proof.
  apply (@from_save_file_of_saved Example.named
           (Example.game (lit "hills") [lit "doug#Analyst#1"]
              [(lit "qp", lit "3")] [lit "look"])
           (Some [lit "Quit"]) []).
  - vm_compute. intuition discriminate.
  - repeat constructor; vm_compute; intuition discriminate.
  - repeat constructor; vm_compute; intuition discriminate.
  - repeat constructor; vm_compute; intuition discriminate.
Defined.

Lemma saved_token_is_not_refused_witness :
  (2 + 1 + 0 <= len (split _SAVE_DELIMITER
                       (to_save_file (Example.game (lit "a;b") [lit "c;d"] [] []))))%Z
  /\ snd (with_save_file (Example.game (lit "start") [] [] [])
            (to_save_file (Example.game (lit "hills") [lit "a;b"] [] [])))
     <> Return RetNone.
Proof.
  split.
  - exact (proj1 (@saved_token_is_not_refused Example.named
                    (Example.game (lit "a;b") [lit "c;d"] [] []))).
  - apply (proj2 (@saved_token_is_not_refused Example.named
                    (Example.game (lit "hills") [lit "a;b"] [] []))).
    vm_compute. intuition discriminate.
Defined.

End SaveFileMore.

(** ** The input helpers, continued *)

Module InputHelpersMore.
Import PyFacts InputHelpers InputHelpersFacts.

Lemma number_loop_output (stop : exn) (max_number : option Z) (inv : str) :
  forall (rejected : list str) (tail : list str) (file : list printed),
    Forall (fun r => forall w, int r = Return w -> in_range max_number w = false)
      rejected ->
    number_loop stop (rejected ++ tail) max_number inv file
    = number_loop stop tail max_number inv
        (file ++ map (fun r =>
                        if nonempty inv then Line inv
                        else match int r with
                             | Raise e => ExnLine e r
                             | Return _ => Line (lit "number out of range")
                             end) rejected).
Proof.
  induction rejected as [|r rejected IH]; intros tail file Hrej.
  - simpl. rewrite app_nil_r. reflexivity.
  - inversion Hrej as [|? ? Hr Hrej']; subst.
    cbn [app number_loop map]. destruct (int r) as [w|e] eqn:Er.
    + rewrite (Hr w eq_refl), IH by assumption. rewrite <- app_assoc. reflexivity.
    + rewrite IH by assumption. rewrite <- app_assoc. reflexivity.
Qed.



(** X14: with a [max_number] that is zero or negative no entry is in
    range: [get_user_input_number] reads the whole input and raises what
    the exhausted source raises. *)
Theorem get_user_input_number_no_range
  (f : source) (message inv : str) (max_number : Z) (file : list printed) :
  (max_number <= 0)%Z ->
  exists file',
    get_user_input_number f message (Some max_number) inv file
    = (with_pending f [], file', Raise (exhausted f))
    /\ List.length file' = (List.length file + List.length (pending f))%nat.
Proof.
  intros Hmax.
  assert (Hrej : Forall (fun r => forall w, int r = Return w ->
                                            in_range (Some max_number) w = false)
                   (pending f)).
  { apply Forall_forall. intros r _ w _. simpl.
    destruct (Z.ltb_spec 0 w); destruct (Z.leb_spec w max_number);
      try reflexivity; lia. }
  pose proof (number_loop_output (exhausted f) (Some max_number) inv
                (pending f) [] file Hrej) as E.
  rewrite app_nil_r in E. cbn [number_loop] in E.
  unfold get_user_input_number. rewrite E.
  eexists. split; [reflexivity|]. rewrite length_app, length_map. reflexivity.
Qed.

Lemma get_user_input_number_no_range_witness :
  exists file',
    get_user_input_number (Scripted [lit "1"; lit "0"]) (lit ">") (Some 0%Z)
      _INVALID_MESSAGE []
    = (Scripted [], file', Raise StopIteration)
    /\ List.length file' = 2%nat.
Proof.
  apply (get_user_input_number_no_range (Scripted [lit "1"; lit "0"]) (lit ">")
           _INVALID_MESSAGE 0 []).
  lia.
Defined.

Lemma name_loop_output (is_valid_name : str -> bool) (stop : exn) :
  forall (rejected tail : list str) (file : list printed),
    Forall (fun r => is_valid_name r = false) rejected ->
    name_loop is_valid_name stop (rejected ++ tail) file
    = name_loop is_valid_name stop tail
        (file ++ repeat (Line (lit "Invalid qaracter name")) (List.length rejected)).
Proof.
  induction rejected as [|r rejected IH]; intros tail file Hrej.
  - simpl. rewrite app_nil_r. reflexivity.
  - inversion Hrej as [|? ? Hr Hrej']; subst.
    cbn [app name_loop List.length repeat]. rewrite Hr, IH by assumption.
    rewrite <- app_assoc. reflexivity.
Qed.

(** X15: [get_user_input_qaracter_name] returns the first entry that is a
    valid name, having printed [Invalid qaracter name] once for every
    entry before it; when no entry is a valid name it raises what the
    exhausted source raises. *)
Theorem get_user_input_qaracter_name_first_valid
  (is_valid_name : str -> bool) (f : source) (qaracter_type : str)
  (file : list printed) (rejected : list str) :
  Forall (fun r => is_valid_name r = false) rejected ->
  (forall name rest,
      pending f = rejected ++ name :: rest -> is_valid_name name = true ->
      get_user_input_qaracter_name is_valid_name f qaracter_type file
      = (with_pending f rest,
         file ++ repeat (Line (lit "Invalid qaracter name")) (List.length rejected),
         Return name))
  /\ (pending f = rejected ->
      get_user_input_qaracter_name is_valid_name f qaracter_type file
      = (with_pending f [],
         file ++ repeat (Line (lit "Invalid qaracter name")) (List.length rejected),
         Raise (exhausted f))).
Proof.
  intros Hrej. split.
  - intros name rest Hp Hname. unfold get_user_input_qaracter_name.
    rewrite Hp, (name_loop_output _ _ rejected (name :: rest) file Hrej).
    cbn [name_loop]. rewrite Hname. reflexivity.
  - intros Hp. unfold get_user_input_qaracter_name.
    rewrite Hp. rewrite <- (app_nil_r rejected) at 1.
    rewrite (name_loop_output _ _ rejected [] file Hrej). reflexivity.
Qed.

Lemma get_user_input_qaracter_name_first_valid_witness :
  get_user_input_qaracter_name nonempty (Stdin [lit ""; lit "doug"; lit "x"])
    (lit "a new qaracter") []
  = (Stdin [lit "x"], [Line (lit "Invalid qaracter name")], Return (lit "doug")).
Proof.
  refine (proj1 (get_user_input_qaracter_name_first_valid nonempty
                   (Stdin [lit ""; lit "doug"; lit "x"]) (lit "a new qaracter") []
                   [lit ""] _)
            (lit "doug") [lit "x"] eq_refl eq_refl).
  repeat constructor.
Defined.

Lemma choose_action_ignores (stop : exn) :
  forall (ignored tail : list str),
    Forall (fun a => a <> lit "r" /\ a <> lit "") ignored ->
    choose_action stop (ignored ++ tail) = choose_action stop tail.
Proof.
  induction ignored as [|a ignored IH]; intros tail Hign; [reflexivity|].
  inversion Hign as [|? ? [Hr He] Hrest]; subst.
  cbn [app choose_action].
  destruct (str_eqb a (lit "r")) eqn:E1; [apply str_eqb_eq in E1; contradiction|].
  destruct (str_eqb a (lit "")) eqn:E2; [apply str_eqb_eq in E2; contradiction|].
  apply IH. assumption.
Qed.

(** X16: once the prompts of [get_multiple_user_inputs] have been answered,
    answers other than [r] and the empty line are read and passed over
    without asking the prompts again; the empty line returns the inputs
    just given; [r] drops them and starts over with all prompts. *)
Theorem get_multiple_user_inputs_confirm_or_redo
  (fuel : nat) (f f1 : source) (prompts : list prompt)
  (file file1 : list printed) (inputs : list value) (ignored : list str) :
  run_prompts prompts f file = (f1, file1, Return inputs) ->
  Forall (fun a => a <> lit "r" /\ a <> lit "") ignored ->
  let menu := [Line (lit "[enter]) Confirm selection.");
               Line (lit "r) Redo selection.")] in
  (forall rest,
      pending f1 = ignored ++ lit "" :: rest ->
      get_multiple_user_inputs (S fuel) f prompts file
      = Some (with_pending f1 rest, file1 ++ menu, Return inputs))
  /\ (forall rest,
        pending f1 = ignored ++ lit "r" :: rest ->
        get_multiple_user_inputs (S fuel) f prompts file
        = get_multiple_user_inputs fuel (with_pending f1 rest) prompts (file1 ++ menu))
  /\ (pending f1 = ignored ->
      get_multiple_user_inputs (S fuel) f prompts file
      = Some (with_pending f1 [], file1 ++ menu, Raise (exhausted f1))).
Proof.
  intros Hrun Hign menu. repeat split.
  - intros rest Hp. cbn [get_multiple_user_inputs]. rewrite Hrun, Hp.
    rewrite choose_action_ignores by assumption. reflexivity.
  - intros rest Hp. cbn [get_multiple_user_inputs]. rewrite Hrun, Hp.
    rewrite choose_action_ignores by assumption. reflexivity.
  - intros Hp. cbn [get_multiple_user_inputs]. rewrite Hrun, Hp.
    rewrite <- (app_nil_r ignored) at 1.
    rewrite choose_action_ignores by assumption. reflexivity.
Qed.

Lemma number_loop_rest (stop : exn) (max_number : option Z) (inv : str) :
  forall (lines : list str) (file : list printed),
    (List.length (fst (fst (number_loop stop lines max_number inv file)))
     <= List.length lines)%nat.
Proof.
  induction lines as [|l lines IH]; intros file; cbn [number_loop]; [simpl; lia|].
  destruct (int l) as [w|e].
  - destruct (in_range max_number w); [simpl; lia|].
    eapply Nat.le_trans; [apply IH | cbn [List.length]; lia].
  - eapply Nat.le_trans; [apply IH | cbn [List.length]; lia].
Qed.

Lemma get_user_input_number_consumes
  (f : source) (message : str) (max_number : option Z) (inv : str)
  (file : list printed) :
  (List.length (pending (fst (fst (get_user_input_number f message max_number inv file))))
   <= List.length (pending f))%nat.
Proof.
  unfold get_user_input_number.
  pose proof (number_loop_rest (exhausted f) max_number inv (pending f) file) as H.
  destruct (number_loop _ _ _ _ _) as [[rest out] r]. cbn [fst] in *.
  rewrite pending_with_pending. exact H.
Qed.

Lemma run_prompts_pending (prompts : list prompt) :
  Forall (fun p : prompt =>
            forall f file,
              (List.length (pending (fst (fst (p f file))))
               <= List.length (pending f))%nat) prompts ->
  forall f file,
    (List.length (pending (fst (fst (run_prompts prompts f file))))
     <= List.length (pending f))%nat.
Proof.
  induction prompts as [|p ps IH]; intros Hmono f file; [simpl; lia|].
  inversion Hmono as [|? ? Hp Hps]; subst. cbn [run_prompts].
  specialize (Hp f file). destruct (p f file) as [[f1 file1] [v|e]]; cbn [fst] in *.
  - specialize (IH Hps f1 file1).
    destruct (run_prompts ps f1 file1) as [[f2 file2] [vs|e]]; cbn [fst] in *; lia.
  - exact Hp.
Qed.

Lemma choose_action_shorter (stop : exn) (lines rest : list str) (sel : selection) :
  choose_action stop lines = (rest, Return sel) ->
  (List.length rest < List.length lines)%nat.
Proof.
  revert rest. induction lines as [|a lines IH]; intros rest H; [discriminate H|].
  cbn [choose_action] in H.
  destruct (str_eqb a (lit "r")); [injection H as <- _; simpl; lia|].
  destruct (str_eqb a (lit "")); [injection H as <- _; simpl; lia|].
  apply IH in H. simpl. lia.
Qed.

(** X17: when no prompt puts entries back into the input source,
    [get_multiple_user_inputs] ends after at most as many redone
    selections as the source holds entries: with the inputs, or with an
    exception. *)
Theorem get_multiple_user_inputs_ends
  (prompts : list prompt) (fuel : nat) (f : source) (file : list printed) :
  Forall (fun p : prompt =>
            forall f file,
              (List.length (pending (fst (fst (p f file))))
               <= List.length (pending f))%nat) prompts ->
  (List.length (pending f) < fuel)%nat ->
  get_multiple_user_inputs fuel f prompts file <> None.
Proof.
  intros Hmono. revert f file.
  induction fuel as [|fuel IH]; intros f file Hfuel; [lia|].
  cbn [get_multiple_user_inputs].
  pose proof (run_prompts_pending prompts Hmono f file) as Hrun.
  destruct (run_prompts prompts f file) as [[f1 file1] [inputs|e]]; [|discriminate].
  cbn [fst] in Hrun.
  destruct (choose_action (exhausted f1) (pending f1)) as [rest [[]|e]] eqn:Ec;
    try discriminate.
  apply choose_action_shorter in Ec. apply IH.
  rewrite pending_with_pending. lia.
Qed.

Lemma get_multiple_user_inputs_confirm_or_redo_witness :
  let ask : prompt := fun f file =>
    match get_user_input_number f (lit "Pick: ") (Some 3%Z) _INVALID_MESSAGE file with
    | (f', file', Return z) => (f', file', Return (IntValue z))
    | (f', file', Raise e) => (f', file', Raise e)
    end in
  get_multiple_user_inputs 1 (Scripted [lit "2"; lit "9"; lit "3"; lit "?"; lit ""; lit "x"])
    [ask; ask] []
  = Some (Scripted [lit "x"],
          [Line _INVALID_MESSAGE;
           Line (lit "[enter]) Confirm selection."); Line (lit "r) Redo selection.")],
          Return [IntValue 2; IntValue 3]).
Proof.
  intros ask.
  refine (proj1 (get_multiple_user_inputs_confirm_or_redo 0
                   (Scripted [lit "2"; lit "9"; lit "3"; lit "?"; lit ""; lit "x"])
                   (Scripted [lit "?"; lit ""; lit "x"]) [ask; ask] []
                   [Line _INVALID_MESSAGE] [IntValue 2; IntValue 3] [lit "?"]
                   eq_refl _)
            [lit "x"] eq_refl).
  repeat constructor; discriminate.
Defined.

Lemma get_multiple_user_inputs_ends_witness :
  let ask : prompt := fun f file =>
    match get_user_input_number f (lit "Pick: ") (Some 3%Z) _INVALID_MESSAGE file with
    | (f', file', Return z) => (f', file', Return (IntValue z))
    | (f', file', Raise e) => (f', file', Raise e)
    end in
  get_multiple_user_inputs 4 (Scripted [lit "2"; lit "r"; lit "1"]) [ask] [] <> None.
Proof.
  intros ask.
  apply (get_multiple_user_inputs_ends [ask] 4 (Scripted [lit "2"; lit "r"; lit "1"]) []).
  - constructor; [|constructor]. intros f file. unfold ask.
    pose proof (get_user_input_number_consumes f (lit "Pick: ") (Some 3%Z)
                  _INVALID_MESSAGE file) as H.
    destruct (get_user_input_number _ _ _ _ _) as [[f' file'] [z|e]]; exact H.
  - simpl. lia.
Defined.

End InputHelpersMore.

(** ** The main loop, continued *)

Module MainLoopMore.
Import PyFacts GameState MainLoop EncounterFacts.

Section WithWorld.
Context {Q : QaracterAPI} {W : WorldAPI}.

Lemma call_unread (f f' : InputHelpers.source) (prompt x : str) :
  InputHelpers.call f prompt = (f', Return x) ->
  InputHelpers.pending f = x :: InputHelpers.pending f'.
Proof.
  destruct f as [[|y l]|[|y l]]; simpl; intros H; try discriminate H;
    injection H as <- <-; reflexivity.
Qed.

Lemma call_unread_le (f : InputHelpers.source) (prompt : str) :
  (List.length (InputHelpers.pending (fst (InputHelpers.call f prompt)))
   <= List.length (InputHelpers.pending f))%nat.
Proof. destruct f as [[|y l]|[|y l]]; simpl; lia. Qed.

Lemma encounter_loop_unread (encs : list Encounter) :
  inputs_only_consumed ->
  forall (self self' : MainLoop.MainLoop) (r : result (option BattleResult)),
    encounter_loop encs self = (self', r) ->
    (unread (game_state self') <= unread (game_state self))%nat.
Proof.
  intros (Hbattle & Haward & _).
  induction encs as [|x encs IH]; intros self self' r H.
  - injection H as <- _. lia.
  - cbn [encounter_loop] in H.
    destruct (will_trigger x (rng self)) as [fires rg].
    destruct fires; [|apply IH in H; exact H].
    cbn [set_rng game_state rng world] in H.
    match type of H with
    | context [run_battle x ?g ?r0] =>
        replace (run_battle x g r0) with (run_battle x (game_state self) rg) in H
          by (destruct (InputHelpers.nonempty (Encounter_description x)); reflexivity)
    end.
    specialize (Hbattle x (game_state self) rg).
    destruct (battle_result (run_battle x (game_state self) rg)) as [res|e].
    + destruct res; cbn [set_world set_game_state write game_state] in H.
      * injection H as <- _. exact Hbattle.
      * specialize (Haward (battle_state (run_battle x (game_state self) rg))
                      (battle_xp (run_battle x (game_state self) rg))).
        destruct (award_xp _ _) as [g out]. cbn [fst] in Haward.
        injection H as <- _. cbn [game_state set_game_state write]. lia.
      * injection H as <- _. exact Hbattle.
    + injection H as <- _. exact Hbattle.
Qed.

Lemma arrive_unread (self self' : MainLoop.MainLoop) (p : bool) (r : result unit) :
  inputs_only_consumed ->
  arrive self p = (self', r) ->
  (unread (game_state self') <= unread (game_state self))%nat.
Proof.
  intros Hcons. unfold arrive. destruct p; [|intros H; injection H as <- _; lia].
  destruct (current_encounters (world (print self (Location_str (world self)))))
    as [|x encs]; [intros H; injection H as <- _; cbn; lia|].
  destruct (encounter_loop (x :: encs) (print self (Location_str (world self))))
    as [self1 r1] eqn:El.
  apply (encounter_loop_unread _ Hcons) in El. cbn [print game_state] in El.
  destruct r1 as [[res|]|e]; intros H; injection H as <- _; exact El.
Qed.

Lemma dispatch_unread (self : MainLoop.MainLoop) (current_input : str)
  (input_cmd : option Command.Command) :
  (unread (game_state (turn_state (dispatch self current_input input_cmd)))
   <= unread (game_state self))%nat.
Proof.
  destruct input_cmd as [[]|]; cbn [dispatch]; try (cbn; lia).
  unfold read. cbn [game_state print].
  pose proof (call_unread_le (get_user_input (game_state self)) []) as Hcall.
  destruct (InputHelpers.call _ _) as [f [save_file|e]]; cbn [fst] in Hcall;
    [|cbn; unfold unread; cbn; exact Hcall].
  cbn [game_state set_game_state].
  pose proof (SaveFileMore.with_save_file_input
                (set_get_user_input (game_state self) f) save_file) as [_ Hin].
  destruct (with_save_file _ save_file) as [g [[]|e]]; cbn [fst] in Hin;
    try (cbn; unfold unread; rewrite Hin; exact Hcall).
  cbn [world set_game_state print].
  destruct (goto (world self) (current_location_label g));
    cbn; unfold unread; rewrite Hin; exact Hcall.
Qed.

Lemma respond_unread (self self' : MainLoop.MainLoop) (p : bool) :
  inputs_only_consumed ->
  respond self = Continue self' p ->
  (unread (game_state self') < unread (game_state self))%nat.
Proof.
  intros (_ & _ & Haction). unfold respond, read.
  destruct (InputHelpers.call _ _) as [f [current_input|e]] eqn:Ec; [|discriminate].
  apply call_unread in Ec.
  assert (Hlt : (List.length (InputHelpers.pending f) < unread (game_state self))%nat)
    by (unfold unread; rewrite Ec; simpl; lia).
  cbn [game_state set_game_state world].
  destruct (Direction_parse current_input) as [cmd|].
  - destruct (move (world self) cmd) as [w [l|]]; intros H; injection H as <- _;
      cbn; exact Hlt.
  - destruct (get_action (world self) current_input) as [[s|a]|].
    + intros H. injection H as <- _. cbn. exact Hlt.
    + specialize (Haction a
                    (set_current_input (set_get_user_input (game_state self) f)
                       current_input) (world self)).
      destruct (run_action a _ (world self)) as [[g w] msg]. cbn [fst] in Haction.
      intros H.
      assert (game_state self' = g)
        by (destruct (InputHelpers.nonempty msg); injection H as <- _; reflexivity).
      subst g. unfold unread in *. cbn in Haction. lia.
    + destruct (Command.parse current_input) as [input_cmd|e].
      * intros H.
        match type of H with
        | dispatch ?s0 _ _ = _ =>
            pose proof (dispatch_unread s0 current_input input_cmd) as Hd
        end.
        rewrite H in Hd. cbn [turn_state] in Hd. unfold unread in *. cbn in Hd. lia.
      * destruct e; try discriminate.
        intros H. injection H as <- _. cbn. exact Hlt.
Qed.

Lemma loop_body_unread (self self' : MainLoop.MainLoop) (p p' : bool) :
  inputs_only_consumed ->
  loop_body self p = Continue self' p' ->
  (unread (game_state self') < unread (game_state self))%nat.
Proof.
  intros Hcons. unfold loop_body.
  destruct (arrive self p) as [self1 [u|e]] eqn:Ea; [|discriminate].
  apply (arrive_unread _ _ _ _ Hcons) in Ea.
  intros H. apply (respond_unread _ _ _ Hcons) in H. lia.
Qed.

Lemma loop_ends (fuel : nat) (self : MainLoop.MainLoop) :
  inputs_only_consumed ->
  (unread (game_state self) < fuel)%nat ->
  loop fuel self <> None.
Proof.
  intros Hcons Hfuel.
  assert (Hturns : forall n s p,
             (unread (game_state s) < n)%nat ->
             forall s' p', turns n s p <> Continue s' p').
  { induction n as [|n IH]; intros s p Hn s' p'; [lia|].
    cbn [turns]. destruct (loop_body s p) as [s1 p1|s1|s1 e] eqn:Eb; try discriminate.
    apply (loop_body_unread _ _ _ _ Hcons) in Eb. apply IH. lia. }
  unfold loop. specialize (Hturns fuel self true Hfuel).
  destruct (turns fuel self true) as [s1 p1|s1|s1 e].
  - elim (Hturns s1 p1). reflexivity.
  - discriminate.
  - destruct e; discriminate.
Qed.

(** X18: when battles, awards and location actions only read from the
    input source, the main loop on a source that holds [n] lines is left
    within [n + 1] turns: by [Quit], by the defeat of the party, or by an
    exception such as the one the exhausted source raises. *)
Theorem loop_ends_on_finite_input (fuel : nat) (self : MainLoop.MainLoop) :
  inputs_only_consumed ->
  (unread (game_state self) < fuel)%nat ->
  loop fuel self <> None.
Proof. exact (loop_ends fuel self). Qed.

End WithWorld.

Lemma loop_ends_on_finite_input_witness :
  @loop Example.named Example.arena 3
    (@mkMainLoop Example.named Example.arena
       (mkWorld [(lit "cave", mkLocation [4%nat])] (lit "cave"))
       (Example.game (lit "cave") [lit "doug"] [] [lit "look"; lit "help"])
       [] 0%nat)
  <> None.
Proof.
  apply (@loop_ends_on_finite_input Example.named Example.arena).
  - repeat split; intros; cbn; lia.
  - cbn. lia.
Defined.

End MainLoopMore.

(** ** Turns of the main loop *)

Module MainLoopTurns.
Import PyFacts GameState MainLoop EncounterFacts.

Lemma parse_raises (s : str) (e : exn) :
  Command.parse s = Raise e -> e = AmbiguousCommandError.
Proof.
  destruct s as [|a s]; [discriminate|].
  rewrite CommandFacts.parse_candidates by discriminate.
  destruct (startswith _ _); [discriminate|].
  destruct (filter _ _) as [|c [|d l]]; congruence.
Qed.

Section WithWorld.
Context {Q : QaracterAPI} {W : WorldAPI}.

Lemma call_pending (f : InputHelpers.source) (prompt s : str) (rest : list str) :
  InputHelpers.pending f = s :: rest ->
  InputHelpers.call f prompt = (InputHelpers.with_pending f rest, Return s).
Proof. destruct f as [l|l]; simpl; intros ->; reflexivity. Qed.

Lemma read_pending (self : MainLoop.MainLoop) (prompt s : str) (rest : list str) :
  InputHelpers.pending (get_user_input (game_state self)) = s :: rest ->
  read self prompt
  = (set_game_state self
       (set_get_user_input (game_state self)
          (InputHelpers.with_pending (get_user_input (game_state self)) rest)),
     Return s).
Proof. intros H. unfold read. rewrite (call_pending _ _ s rest H). reflexivity. Qed.

(** [respond] once the line is read, by what the line is. *)
Lemma respond_pending (self : MainLoop.MainLoop) (s : str) (rest : list str) :
  InputHelpers.pending (get_user_input (game_state self)) = s :: rest ->
  respond self
  = let self1 := set_game_state self (after_read self s rest) in
    match Direction_parse s with
    | Some cmd =>
        let '(w, new_location) := move (world self) cmd in
        let self2 := set_world self1 w in
        Continue
          match new_location with
          | Some l =>
              set_game_state self2 (set_current_location_label (game_state self2) l)
          | None => self2
          end true
    | None =>
        match get_action (world self) s with
        | Some (ActionText t) => Continue (print self1 t) false
        | Some (ActionCall a) =>
            let '(g, w, msg) := run_action a (after_read self s rest) (world self) in
            let self2 := set_world (set_game_state self1 g) w in
            Continue (if InputHelpers.nonempty msg then print self2 msg else self2) false
        | None =>
            match Command.parse s with
            | Raise AmbiguousCommandError =>
                Continue
                  (print self1 (lit "Ambiguous command '" ++ s ++ lit "'. " ++ help))
                  false
            | Raise e => Raised self1 e
            | Return input_cmd => dispatch self1 s input_cmd
            end
        end
    end.
Proof.
  intros H. unfold respond. rewrite (read_pending self (lit ">") s rest H).
  reflexivity.
Qed.

(** X19: a line that is a direction is a move, and a line that is not a
    direction but an action of the location is that action, whatever
    [Command.parse] makes of the line: the move leaves the printed
    output alone and sets the location label of the game state only when
    there is an exit; the action suppresses the next room description. *)
Theorem directions_and_actions_come_first
  (self : MainLoop.MainLoop) (s : str) (rest : list str) :
  InputHelpers.pending (get_user_input (game_state self)) = s :: rest ->
  (forall cmd,
      Direction_parse s = Some cmd ->
      respond self
      = Continue
          match exits (current_location (world self)) cmd with
          | Some l =>
              mkMainLoop (mkWorld (locations (world self)) l)
                (set_current_location_label (after_read self s rest) l)
                (file self) (rng self)
          | None =>
              mkMainLoop (world self) (after_read self s rest) (file self) (rng self)
          end true)
  /\ (forall t,
        Direction_parse s = None ->
        get_action (world self) s = Some (ActionText t) ->
        respond self
        = Continue
            (mkMainLoop (world self) (after_read self s rest)
               (file self ++ [Line t]) (rng self)) false)
  /\ (forall a,
        Direction_parse s = None ->
        get_action (world self) s = Some (ActionCall a) ->
        exists self',
          respond self = Continue self' false
          /\ game_state self'
             = fst (fst (run_action a (after_read self s rest) (world self)))
          /\ world self'
             = snd (fst (run_action a (after_read self s rest) (world self)))).
Proof.
  intros Hp. rewrite (respond_pending self s rest Hp). cbv zeta.
  split; [|split].
  - intros cmd ->. unfold move.
    destruct (exits (current_location (world self)) cmd); reflexivity.
  - intros t -> ->. reflexivity.
  - intros a -> ->.
    destruct (run_action a (after_read self s rest) (world self)) as [[g w] msg].
    eexists. split; [reflexivity|].
    destruct (InputHelpers.nonempty msg); split; reflexivity.
Qed.

(** X20: a line that is neither a direction nor an action of the location,
    and that [Command.parse] does not take for [load], changes nothing
    but the printed output: the world, the party, the flags and the
    location label are kept; [Quit] leaves the loop without printing,
    every other such line prints and suppresses the next room
    description. *)
Theorem commands_but_load_keep_the_game
  (self : MainLoop.MainLoop) (s : str) (rest : list str) :
  InputHelpers.pending (get_user_input (game_state self)) = s :: rest ->
  Direction_parse s = None ->
  get_action (world self) s = None ->
  Command.parse s <> Return (Some Command.LOAD) ->
  world (turn_state (respond self)) = world self
  /\ rng (turn_state (respond self)) = rng self
  /\ game_state (turn_state (respond self)) = after_read self s rest
  /\ (Command.parse s = Return (Some Command.QUIT) ->
      respond self
      = Returned (mkMainLoop (world self) (after_read self s rest)
                    (file self) (rng self)))
  /\ (Command.parse s <> Return (Some Command.QUIT) ->
      exists self' out,
        respond self = Continue self' false
        /\ file self' = file self ++ out /\ out <> []).
Proof.
  intros Hp Hd Ha Hload. rewrite (respond_pending self s rest Hp). cbv zeta.
  rewrite Hd, Ha.
  destruct (Command.parse s) as [[[]|]|e] eqn:Eparse; try congruence.
  - repeat split; try reflexivity; try congruence.
    intros _. do 2 eexists. split; [reflexivity|].
    cbn [file print_status print set_game_state]. split; [reflexivity | discriminate].
  - repeat split; try reflexivity; try congruence.
    intros _. do 2 eexists. split; [reflexivity|].
    cbn [file print_status print set_game_state]. split; [reflexivity | discriminate].
  - repeat split; try reflexivity; try congruence.
    intros _. do 2 eexists. split; [reflexivity|].
    cbn [file print set_game_state]. rewrite <- app_assoc.
    split; [reflexivity | discriminate].
  - repeat split; try reflexivity; try congruence.
    intros _. do 2 eexists. split; [reflexivity|].
    cbn [file print set_game_state]. split; [reflexivity | discriminate].
  - repeat split; try reflexivity; try congruence.
    intros _. do 2 eexists. split; [reflexivity|].
    cbn [file print_quantopedia write set_game_state]. split; [reflexivity | discriminate].
  - repeat split; try reflexivity; try congruence.
  - repeat split; try reflexivity; try congruence.
    intros _. do 2 eexists. split; [reflexivity|].
    cbn [file print set_game_state]. split; [reflexivity | discriminate].
  - apply parse_raises in Eparse. subst e.
    repeat split; try reflexivity; try congruence.
    intros _. do 2 eexists. split; [reflexivity|].
    cbn [file print set_game_state]. split; [reflexivity | discriminate].
Qed.

End WithWorld.

Lemma directions_and_actions_come_first_witness :
  let self := @mkMainLoop Example.named Example.village
                (mkWorld [(lit "square", mkLocation []); (lit "mill", mkLocation [])]
                   (lit "square"))
                (Example.game (lit "square") [lit "doug"] [] [lit "Quit"; lit "n"])
                [] 0%nat in
  Command.parse (lit "Quit") = Return (Some Command.QUIT)
  /\ @respond Example.named Example.village self
     = Continue
         (@mkMainLoop Example.named Example.village (world self)
            (@after_read Example.named Example.village self (lit "Quit") [lit "n"])
            [Line (lit "There is no way out.")] 0%nat) false.
Proof.
  intros self. split; [reflexivity|].
  exact (proj1 (proj2 (@directions_and_actions_come_first Example.named Example.village
                         self (lit "Quit") [lit "n"] eq_refl))
           (lit "There is no way out.") eq_refl eq_refl).
Defined.

Lemma commands_but_load_keep_the_game_witness :
  let self := @mkMainLoop Example.named Example.arena
                (mkWorld [(lit "cave", mkLocation [4%nat])] (lit "cave"))
                (Example.game (lit "cave") [lit "doug"] [(lit "qp", lit "1")]
                   [lit "sta"; lit "Quit"])
                [] 0%nat in
  world (turn_state (@respond Example.named Example.arena self)) = world self
  /\ game_state (turn_state (@respond Example.named Example.arena self))
     = @after_read Example.named Example.arena self (lit "sta") [lit "Quit"].
Proof.
  intros self.
  destruct (@commands_but_load_keep_the_game Example.named Example.arena
              self (lit "sta") [lit "Quit"] eq_refl eq_refl eq_refl)
    as (Hw & _ & Hg & _).
  - discriminate.
  - split; [exact Hw | exact Hg].
Defined.

End MainLoopTurns.

(** ** Loading and encounters in the main loop *)

Module MainLoopLoad.
Import PyFacts GameState MainLoop EncounterFacts MainLoopTurns.

Section WithWorld.
Context {Q : QaracterAPI} {W : WorldAPI}.

Lemma after_read_again (self : MainLoop.MainLoop) (s tok : str) (rest : list str) :
  set_get_user_input (after_read self s (tok :: rest))
    (InputHelpers.with_pending (get_user_input (after_read self s (tok :: rest))) rest)
  = after_read self s rest.
Proof.
  unfold after_read. cbn [get_user_input set_current_input set_get_user_input].
  destruct (get_user_input (game_state self)); reflexivity.
Qed.

(** The [LOAD] branch once the token is read. *)
Lemma dispatch_load (self : MainLoop.MainLoop) (s tok : str) (rest : list str) :
  InputHelpers.pending (get_user_input (game_state self)) = s :: tok :: rest ->
  dispatch (set_game_state self (after_read self s (tok :: rest))) s
    (Some Command.LOAD)
  = let self1 :=
      print self (lit "Paste the save file here to load the game from that point.") in
    match with_save_file (after_read self s rest) tok with
    | (g, Raise e) => Raised (set_game_state self1 g) e
    | (g, Return RetNone) =>
        Continue (print (set_game_state self1 g) (lit "Unrecognized save file.")) true
    | (g, Return RetSelf) =>
        match goto (world self) (current_location_label g) with
        | Raise e => Raised (set_game_state self1 g) e
        | Return w => Continue (set_world (set_game_state self1 g) w) true
        end
    end.
Proof.
  intros Hp. cbn [dispatch]. 
  rewrite (read_pending _ [] tok rest).
  - cbn [game_state set_game_state print]. rewrite after_read_again.
    destruct (with_save_file (after_read self s rest) tok) as [g [[]|e]]; reflexivity.
  - cbn [game_state set_game_state print]. unfold after_read.
    cbn [get_user_input set_current_input set_get_user_input].
    destruct (get_user_input (game_state self)); simpl in *; congruence.
Qed.

(** X21: a [load] whose token is read without fault but names a location
    that the world does not have raises [KeyError]; the loop does not
    handle it, so it ends the loop, with party, flags and location label
    already replaced by those of the token and the world where it was. *)
Theorem load_of_unknown_location_escapes
  (n : nat) (self : MainLoop.MainLoop) (s tok : str) (rest : list str)
  (g : GameState.GameState) :
  current_encounters (world self) = [] ->
  InputHelpers.pending (get_user_input (game_state self)) = s :: tok :: rest ->
  Direction_parse s = None ->
  get_action (world self) s = None ->
  Command.parse s = Return (Some Command.LOAD) ->
  with_save_file (after_read self s rest) tok = (g, Return RetSelf) ->
  find (locations (world self)) (current_location_label g) = None ->
  exists self',
    loop (S n) self = Some (self', Raise KeyError)
    /\ game_state self' = g
    /\ world self' = world self.
Proof.
  intros Henc Hp Hd Ha Hparse Hload Hfind.
  unfold loop. cbn [turns]. unfold loop_body, arrive.
  change (world (print self (Location_str (world self)))) with (world self).
  rewrite Henc.
  rewrite (respond_pending _ s (tok :: rest)) by exact Hp.
  cbv zeta. cbn [world print]. rewrite Hd, Ha, Hparse.
  rewrite (dispatch_load (print self (Location_str (world self))) s tok rest Hp).
  cbv zeta.
  change (after_read (print self (Location_str (world self))) s rest)
    with (after_read self s rest).
  rewrite Hload. cbn [world print]. unfold goto. rewrite Hfind.
  eexists. split; [reflexivity|]. split; reflexivity.
Qed.

(** X22: typing [save] and then [load] followed by the token that [save]
    printed brings back the same party, flags and location label, and
    points the world at that location; the fields of the state are
    assumed free of the delimiters, and the location known to the
    world. *)
Theorem save_then_load_restores
  (self : MainLoop.MainLoop) (s1 s2 : str) (rest : list str)
  (loc : Location Encounter) :
  InputHelpers.pending (get_user_input (game_state self))
  = s1 :: s2 :: to_save_file (game_state self) :: rest ->
  (Direction_parse s1 = None /\ get_action (world self) s1 = None
   /\ Command.parse s1 = Return (Some Command.SAVE)) ->
  (Direction_parse s2 = None /\ get_action (world self) s2 = None
   /\ Command.parse s2 = Return (Some Command.LOAD)) ->
  ~ In _SAVE_DELIMITER (current_location_label (game_state self)) ->
  Forall (fun p => ~ In _SAVE_DELIMITER (Qaracter_to_save_file p)
                   /\ Qaracter_from_save_file (Qaracter_to_save_file p) = Return p)
    (party (game_state self)) ->
  Forall (fun kv => (~ In _SAVE_DELIMITER (fst kv) /\ ~ In _DICT_DELIMITER (fst kv))
                    /\ (~ In _SAVE_DELIMITER (snd kv) /\ ~ In _DICT_DELIMITER (snd kv)))
    (state_dict (game_state self)) ->
  Dict.wf (state_dict (game_state self)) ->
  find (locations (world self)) (current_location_label (game_state self)) = Some loc ->
  exists self2,
    turns 2 self false = Continue self2 true
    /\ In (Line (to_save_file (game_state self))) (file self2)
    /\ party (game_state self2) = party (game_state self)
    /\ state_dict (game_state self2) = state_dict (game_state self)
    /\ current_location_label (game_state self2)
       = current_location_label (game_state self)
    /\ world self2
       = mkWorld (locations (world self)) (current_location_label (game_state self))
    /\ InputHelpers.pending (get_user_input (game_state self2)) = rest.
Proof.
  intros Hp (Hd1 & Ha1 & Hparse1) (Hd2 & Ha2 & Hparse2) Hlabel Hparty Hflags Hwf Hfind.
  set (tok := to_save_file (game_state self)) in *.
  cbn [turns]. unfold loop_body at 1. cbn [arrive].
  rewrite (respond_pending _ s1 (s2 :: tok :: rest)) by exact Hp.
  cbv zeta. rewrite Hd1, Ha1, Hparse1. cbn [dispatch].
  set (self1 := print (print _ _) _).
  assert (Hp1 : InputHelpers.pending (get_user_input (game_state self1))
                = s2 :: tok :: rest).
  { unfold self1, after_read.
    cbn [game_state print set_game_state get_user_input set_current_input
           set_get_user_input].
    destruct (get_user_input (game_state self)); reflexivity. }
  unfold loop_body. cbn [arrive].
  rewrite (respond_pending _ s2 (tok :: rest)) by exact Hp1.
  cbv zeta. change (world self1) with (world self). rewrite Hd2, Ha2, Hparse2.
  rewrite (dispatch_load self1 s2 tok rest Hp1). cbv zeta.
  change (with_save_file (after_read self1 s2 rest) tok)
    with (with_save_file (after_read self1 s2 rest) (to_save_file (game_state self1))).
  rewrite (SaveFileFacts.with_save_file_segments (after_read self1 s2 rest)
             (game_state self1)).
  - change (world self1) with (world self). unfold goto. cbn [current_location_label].
    change (current_location_label (game_state self1))
      with (current_location_label (game_state self)).
    rewrite Hfind. eexists. split; [reflexivity|].
    cbn [file game_state world set_world set_game_state print party state_dict
           current_location_label get_user_input].
    split.
    + unfold self1. cbn [file print set_game_state].
      apply in_or_app. left. apply in_or_app. right. left. reflexivity.
    + repeat split; try reflexivity.
      unfold after_read. cbn [get_user_input set_current_input set_get_user_input].
      apply InputHelpersFacts.pending_with_pending.
  - change (segments (game_state self1)) with (segments (game_state self)).
    unfold segments. constructor; [assumption|].
    constructor; [apply str_of_int_free; [reflexivity | discriminate]|].
    apply Forall_app. split; apply Forall_map.
    + eapply Forall_impl; [|exact Hparty]. cbn beta. tauto.
    + eapply Forall_impl; [|exact Hflags]. intros [k v]. unfold flag_segment.
      cbn [fst snd]. intros [[Hk _] [Hv _]] Hin.
      apply in_app_or in Hin. destruct Hin as [Hin|Hin]; [tauto|].
      destruct Hin as [Hin|Hin]; [discriminate Hin | tauto].
  - change (party (game_state self1)) with (party (game_state self)).
    eapply Forall_impl; [|exact Hparty]. cbn beta. tauto.
  - change (state_dict (game_state self1)) with (state_dict (game_state self)).
    eapply Forall_impl; [|exact Hflags]. cbn beta. tauto.
  - exact Hwf.
Qed.

Lemma encounter_loop_world (encs : list Encounter) :
  forall (self self' : MainLoop.MainLoop) (r : result (option BattleResult)),
    encounter_loop encs self = (self', r) ->
    world self'
    = match fired encs self with
      | Some (e, _) => remove_encounter (world self) (current_location (world self)) e
      | None => world self
      end.
Proof.
  induction encs as [|x encs IH]; intros self self' r H.
  - injection H as <- _. reflexivity.
  - cbn [encounter_loop fired] in *.
    destruct (will_trigger x (rng self)) as [fires rg].
    destruct fires; [|apply IH in H; exact H].
    cbn [set_rng game_state rng world] in *.
    match type of H with
    | context [run_battle x ?g ?r0] =>
        replace (run_battle x g r0) with (run_battle x (game_state self) rg) in H
          by (destruct (InputHelpers.nonempty (Encounter_description x)); reflexivity)
    end.
    destruct (battle_result (run_battle x (game_state self) rg)) as [res|e].
    + destruct (InputHelpers.nonempty (Encounter_description x));
        destruct res; cbn in H;
        try destruct (award_xp _ _) as [g out];
        injection H as <- _; reflexivity.
    + destruct (InputHelpers.nonempty (Encounter_description x));
        injection H as <- _; reflexivity.
Qed.

(** X23: on arrival at most one encounter is fought: when an encounter is
    fought to a result, the list of encounters of the current location
    afterwards is the list before without the entries equal to that
    encounter, in the same order, the lists of all other locations are as
    before and so is the current location; otherwise the world is as before; a turn that does
    not describe the room tries no encounter and changes nothing. *)
Theorem arrival_removes_only_the_fought_encounter
  (self self' : MainLoop.MainLoop) (r : result unit) :
  arrive self true = (self', r) ->
  match fired (current_encounters (world self)) self with
  | Some (e, _) =>
      current_location (world self') = current_location (world self)
      /\ forall l,
           encounters_at (world self') l
           = if str_eqb (current_location (world self)) l
             then filter (fun x => negb (Encounter_eqb x e))
                    (encounters_at (world self) l)
             else encounters_at (world self) l
  | None => world self' = world self
  end
  /\ arrive self false = (self, Return tt).
Proof.
  intros H. split; [|reflexivity].
  unfold arrive in H.
  set (self0 := print self (Location_str (world self))) in H.
  change (world self0) with (world self) in H.
  assert (Hf : forall encs, fired encs self0 = fired encs self)
    by (intros encs; apply fired_ext; reflexivity).
  destruct (current_encounters (world self)) as [|x encs] eqn:Ec.
  - injection H as <- _. reflexivity.
  - destruct (encounter_loop (x :: encs) self0) as [self1 r1] eqn:El.
    apply encounter_loop_world in El. rewrite Hf in El.
    change (world self0) with (world self) in El.
    assert (Hw : world self' = world self1)
      by (destruct r1 as [[res|]|e]; injection H as <- _; reflexivity).
    rewrite Hw, El.
    destruct (fired (x :: encs) self) as [[e res]|]; [|reflexivity].
    split; [apply current_location_remove|].
    intros l. apply encounters_at_remove.
Qed.

End WithWorld.

Lemma load_of_unknown_location_escapes_witness :
  exists self',
    @loop Example.named Example.arena 1
      (@mkMainLoop Example.named Example.arena
         (mkWorld [(lit "cave", mkLocation [])] (lit "cave"))
         (Example.game (lit "cave") [lit "doug"] [] [lit "load"; lit "moon;0"])
         [] 0%nat)
    = Some (self', Raise KeyError)
    /\ current_location_label (game_state self') = lit "moon"
    /\ current_location (world self') = lit "cave".
Proof.
  destruct (@load_of_unknown_location_escapes Example.named Example.arena 0
              (@mkMainLoop Example.named Example.arena
                 (mkWorld [(lit "cave", mkLocation [])] (lit "cave"))
                 (Example.game (lit "cave") [lit "doug"] [] [lit "load"; lit "moon;0"])
                 [] 0%nat)
              (lit "load") (lit "moon;0") []
              (@mkGameState Example.named [] (lit "moon") (lit "load") []
                 (InputHelpers.Scripted []))
              eq_refl eq_refl eq_refl eq_refl eq_refl eq_refl eq_refl)
    as (self' & Hloop & Hg & Hw).
  exists self'. split; [exact Hloop|]. rewrite Hg, Hw. split; reflexivity.
Defined.

Lemma save_then_load_restores_witness :
  let self := @mkMainLoop Example.named Example.arena
                (mkWorld [(lit "cave", mkLocation [])] (lit "cave"))
                (Example.game (lit "cave") [lit "doug"] [(lit "qp", lit "1")]
                   [lit "save"; lit "load"; lit "cave;1;doug;qp:1"; lit "Quit"])
                [] 0%nat in
  exists self2,
    @turns Example.named Example.arena 2 self false = Continue self2 true
    /\ party (game_state self2) = [lit "doug"]
    /\ state_dict (game_state self2) = [(lit "qp", lit "1")]
    /\ InputHelpers.pending (get_user_input (game_state self2)) = [lit "Quit"].
Proof.
  intros self.
  destruct (@save_then_load_restores Example.named Example.arena self
              (lit "save") (lit "load") [lit "Quit"] (mkLocation []) eq_refl)
    as (self2 & Hturns & _ & Hparty & Hflags & _ & _ & Hrest).
  - repeat split; reflexivity.
  - repeat split; reflexivity.
  - vm_compute. intuition discriminate.
  - repeat constructor; vm_compute; intuition discriminate.
  - repeat constructor; vm_compute; intuition discriminate.
  - repeat constructor; vm_compute; intuition discriminate.
  - reflexivity.
  - exists self2. repeat split; assumption.
Defined.

Lemma arrival_removes_only_the_fought_encounter_witness :
  let self := @mkMainLoop Example.named Example.arena
                (mkWorld [(lit "cave", mkLocation [4%nat; 7%nat]);
                          (lit "hill", mkLocation [4%nat])] (lit "cave"))
                (Example.game (lit "cave") [lit "doug"] [] [])
                [] 0%nat in
  encounters_at (world (fst (@arrive Example.named Example.arena self true)))
    (lit "cave") = [7%nat]
  /\ encounters_at (world (fst (@arrive Example.named Example.arena self true)))
       (lit "hill") = [4%nat].
Proof.
  intros self.
  pose proof (@arrival_removes_only_the_fought_encounter Example.named Example.arena
                self (fst (@arrive Example.named Example.arena self true))
                (snd (@arrive Example.named Example.arena self true)) eq_refl)
    as [[_ H] _].
  split; [exact (H (lit "cave")) | exact (H (lit "hill"))].
Defined.

End MainLoopLoad.

(** ** The start menu *)

Module MainFacts.
Import PyFacts GameState MainLoop InputHelpersFacts InputHelpersMore.

Lemma get_user_input_number_returns_less
  (f f' : InputHelpers.source) (message inv : str) (max_number : option Z)
  (file file' : list printed) (v : Z) :
  InputHelpers.get_user_input_number f message max_number inv file
  = (f', file', Return v) ->
  (List.length (InputHelpers.pending f') < List.length (InputHelpers.pending f))%nat.
Proof.
  unfold InputHelpers.get_user_input_number.
  destruct (InputHelpers.number_loop _ _ _ _ _) as [[rest out] r] eqn:E.
  intros H. injection H as <- _ ->.
  apply number_loop_returns in E. destruct E as (_ & rejected & line & Hp & _).
  rewrite pending_with_pending, Hp, length_app. simpl. lia.
Qed.


Lemma name_loop_rest (is_valid_name : str -> bool) (stop : exn) :
  forall (lines : list str) (file : list printed),
    (List.length (fst (fst (InputHelpers.name_loop is_valid_name stop lines file)))
     <= List.length lines)%nat.
Proof.
  induction lines as [|l lines IH]; intros file; cbn [InputHelpers.name_loop];
    [simpl; lia|].
  destruct (is_valid_name l); [simpl; lia|].
  eapply Nat.le_trans; [apply IH | cbn [List.length]; lia].
Qed.

Section WithWorld.
Context {Q : QaracterAPI} {W : WorldAPI}.
Variables (TITLE_SCREEN START_MENU INTRO_STORY : str).
Variable Analyst : str -> Qaracter.
Variable is_valid_name : str -> bool.
Variable WORLD : World Encounter.
Variable rng0 : Rng.

(** The menu ends, and the game it starts has fewer lines to read than
    the menu had. *)
Lemma start_menu_result (fuel : nat) :
  forall (state : GameState.GameState) (file : list printed),
    (unread state < fuel)%nat ->
    exists m,
      Main.start_menu START_MENU INTRO_STORY Analyst is_valid_name WORLD rng0
        fuel state file = Some m
      /\ forall main_loop,
           m = Main.Started main_loop ->
           (unread (game_state main_loop) < unread state)%nat.
Proof.
  induction fuel as [|fuel IH]; intros state file Hfuel; [lia|].
  cbn [Main.start_menu].
  destruct (InputHelpers.get_user_input_number _ _ _ _ _) as [[f file1] [choice|e]] eqn:En.
  2:{ eexists. split; [reflexivity|]. discriminate. }
  apply get_user_input_number_returns_less in En.
  assert (Hless : (unread (set_get_user_input state f) < unread state)%nat)
    by (unfold unread; cbn; exact En).
  destruct (choice =? 1)%Z.
  { cbn [get_user_input set_get_user_input].
    unfold InputHelpers.get_user_input_qaracter_name.
    pose proof (name_loop_rest is_valid_name (InputHelpers.exhausted f)
                  (InputHelpers.pending f) (file1 ++ [Line INTRO_STORY])) as Hn.
    destruct (InputHelpers.name_loop _ _ _ _) as [[rest out] [name|e]]; cbn [fst] in Hn.
    - eexists. split; [reflexivity|]. intros ml Hml. injection Hml as <-.
      unfold unread in *. cbn in *. rewrite pending_with_pending. lia.
    - eexists. split; [reflexivity|]. discriminate. }
  destruct (choice =? 2)%Z.
  { cbn [get_user_input set_get_user_input].
    pose proof (MainLoopMore.call_unread_le f (lit "")) as Hcall.
    destruct (InputHelpers.call f (lit "")) as [f2 [save_file|e]]; cbn [fst] in Hcall.
    2:{ eexists. split; [reflexivity|]. discriminate. }
    pose proof (SaveFileMore.with_save_file_input
                  (set_get_user_input (set_get_user_input state f) f2) save_file)
      as [_ Hin].
    destruct (with_save_file _ save_file) as [g [[]|e]]; cbn [fst] in Hin.
    - destruct (IH g (file1 ++
                       [Line (lit "Paste the save file here to load the game from that point.")]
                       ++ [Line (lit "Unrecognized save file.")])) as (m & Hm & Hlt).
      + unfold unread in *. rewrite Hin. cbn in *. lia.
      + exists m. rewrite <- app_assoc. split; [exact Hm|].
        intros ml Hml. specialize (Hlt ml Hml).
        unfold unread in *. rewrite Hin in Hlt. cbn in *. lia.
    - destruct (goto WORLD (current_location_label g)).
      + eexists. split; [reflexivity|]. intros ml Hml. injection Hml as <-.
        unfold unread in *. cbn [game_state]. rewrite Hin. cbn in *. lia.
      + eexists. split; [reflexivity|]. discriminate.
    - eexists. split; [reflexivity|]. discriminate. }
  destruct (choice =? 3)%Z.
  { destruct (IH (set_get_user_input state f) (file1 ++ [Line ascii_art_HELP]))
      as (m & Hm & Hlt); [lia|].
    exists m. split; [exact Hm|]. intros ml Hml. specialize (Hlt ml Hml). lia. }
  destruct (choice =? 4)%Z.
  { eexists. split; [reflexivity|]. discriminate. }
  destruct (IH (set_get_user_input state f) file1) as (m & Hm & Hlt); [lia|].
  exists m. split; [exact Hm|]. intros ml Hml. specialize (Hlt ml Hml). lia.
Qed.

(** X24: on an input source that holds [n] lines, [main] is over within
    [n + 1] rounds of the menu and [n + 1] turns of the main loop,
    battles, awards and location actions being assumed only to read from
    the source. *)
Theorem main_ends_on_finite_input
  (menu_fuel loop_fuel : nat) (state : GameState.GameState) (file : list printed) :
  inputs_only_consumed ->
  (unread state < menu_fuel)%nat ->
  (unread state < loop_fuel)%nat ->
  Main.main TITLE_SCREEN START_MENU INTRO_STORY Analyst is_valid_name WORLD rng0
    menu_fuel loop_fuel state file <> None.
Proof.
  intros Hcons Hmenu Hloop. unfold Main.main.
  destruct (start_menu_result menu_fuel state (file ++ [Line TITLE_SCREEN]) Hmenu)
    as (m & Hm & Hlt).
  rewrite Hm. destruct m as [ml|st fl|st fl e]; try discriminate.
  specialize (Hlt ml eq_refl).
  pose proof (MainLoopMore.loop_ends loop_fuel ml Hcons ltac:(lia)) as Hl.
  destruct (loop loop_fuel ml) as [[ml' r]|]; [discriminate | contradiction].
Qed.


End WithWorld.

Lemma main_ends_on_finite_input_witness :
  @Main.main Example.named Example.arena (lit "QUANTUM RPG") (lit "1) New game")
    (lit "Once upon a time") (fun name => name) InputHelpers.nonempty
    (mkWorld [(lit "cave", mkLocation [])] (lit "cave")) 0%nat
    4 4 (Example.game (lit "") [] [] [lit "3"; lit "1"; lit "doug"]) []
  <> None.
Proof.
  apply (@main_ends_on_finite_input Example.named Example.arena).
  - repeat split; intros; cbn; lia.
  - cbn. lia.
  - cbn. lia.
Defined.


End MainFacts.

(** ** The earlier command parser *)

Module EarlierCommandFacts.

Lemma current_quit_prefix (s : str) :
  Command.parse s = Return (Some Command.QUIT) ->
  s <> [] /\ startswith (Command.value Command.QUIT) s = true.
Proof.
  intros H. destruct s as [|a s]; [discriminate H|]. split; [discriminate|].
  rewrite CommandFacts.parse_candidates in H by discriminate.
  destruct (startswith (Command.value Command.QUIT) (a :: s)); [reflexivity|].
  destruct (filter _ Command.members) as [|x [|y l]] eqn:E; try discriminate.
  injection H as ->.
  assert (Hin : In Command.QUIT
                  (filter (Command.candidate (lower (a :: s))) Command.members))
    by (rewrite E; simpl; auto).
  apply filter_In in Hin. destruct Hin as [_ Hin]. discriminate Hin.
Qed.

(** X26: the earlier [Command.parse] never raises and answers [QUIT]
    exactly for the inputs that, lower-cased, are a prefix of [quit]:
    among them the empty line, which the current parser answers with
    [None]; whatever the current parser takes for [QUIT], the earlier one
    does too. *)
Theorem earlier_parse_quit (s : str) :
  (EarlierCommand.parse s = Some EarlierCommand.QUIT
   <-> startswith (lit "quit") (lower s) = true)
  /\ (EarlierCommand.parse s = None <-> startswith (lit "quit") (lower s) = false)
  /\ EarlierCommand.parse (lit "") = Some EarlierCommand.QUIT
  /\ Command.parse (lit "") = Return None
  /\ (Command.parse s = Return (Some Command.QUIT) ->
      EarlierCommand.parse s = Some EarlierCommand.QUIT).
Proof.
  unfold EarlierCommand.parse, EarlierCommand.members.
  cbn [EarlierCommand.first_match]. 
  change (EarlierCommand.value EarlierCommand.QUIT) with (lit "quit").
  split; [|split; [|split; [|split]]].
  - destruct (startswith (lit "quit") (lower s)); split; congruence.
  - destruct (startswith (lit "quit") (lower s)); split; congruence.
  - reflexivity.
  - reflexivity.
  - intros H. apply current_quit_prefix in H. destruct H as [_ H].
    apply CommandFacts.startswith_prefixes in H.
    cbv in H. repeat destruct H as [H|H]; try contradiction; subst s; reflexivity.
Qed.

End EarlierCommandFacts.
